(** * Verification of the GitHub compliance pipeline

    Shallow embedding of [src/main/python/jobs/data_extraction.py]
    ([fetch_data], [save_df_as_json], [fetch_repositories],
    [fetch_pull_requests], [main]) and
    [src/main/python/jobs/data_transformation.py] (the PySpark
    aggregation). *)

From Stdlib Require Import ZArith List Bool Lia.
From Stdlib Require Import Strings.String Strings.Ascii.
From Stdlib Require Import Structures.OrdersEx RelationClasses Sorting.Permutation.
Import ListNotations.
Open Scope string_scope.

(** ** Python string helpers used by the Link-header parsing *)
Module PyStr.

Definition ch (n : nat) : ascii := ascii_of_nat n.

(** The double quote character, as a one-character string. *)
Definition dq : string := String (ch 34) EmptyString.

(** [s.startswith(n)] *)
Fixpoint starts_with (n s : string) : bool :=
  match n, s with
  | EmptyString, _ => true
  | String c n', String d s' => Ascii.eqb c d && starts_with n' s'
  | String _ _, EmptyString => false
  end.

(** [n in s] for strings. *)
Fixpoint contains (n s : string) : bool :=
  starts_with n s ||
  match s with
  | EmptyString => false
  | String _ s' => contains n s'
  end.

(** Prepend a character to the first piece of a split. *)
Definition cons_head (c : ascii) (l : list string) : list string :=
  match l with
  | [] => [String c EmptyString]
  | p :: ps => String c p :: ps
  end.

(** [s.split(", ")]: cut at every leftmost occurrence of the two-character
    separator. *)
Fixpoint split_cs (s : string) : list string :=
  match s with
  | EmptyString => [EmptyString]
  | String c rest =>
      match rest with
      | String d rest' =>
          if Ascii.eqb c "," && Ascii.eqb d " "
          then EmptyString :: split_cs rest'
          else cons_head c (split_cs rest)
      | EmptyString => [String c EmptyString]
      end
  end.

(** [s.split(";")[0]]: the text before the first semicolon. *)
Fixpoint take_until (sep : ascii) (s : string) : string :=
  match s with
  | EmptyString => EmptyString
  | String c s' => if Ascii.eqb c sep then EmptyString else String c (take_until sep s')
  end.

Definition before_semi (s : string) : string := take_until ";" s.

(** [s.lstrip(chars)] and [s.rstrip(chars)] for a set of characters given
    as a predicate. *)
Fixpoint lstrip (p : ascii -> bool) (s : string) : string :=
  match s with
  | EmptyString => EmptyString
  | String c s' => if p c then lstrip p s' else s
  end.

Fixpoint rstrip (p : ascii -> bool) (s : string) : string :=
  match s with
  | EmptyString => EmptyString
  | String c s' =>
      let r := rstrip p s' in
      match r with
      | EmptyString => if p c then EmptyString else String c EmptyString
      | _ => String c r
      end
  end.

Definition strip (p : ascii -> bool) (s : string) : string := rstrip p (lstrip p s).

(** The characters of [strip("<>")]. *)
Definition is_angle (c : ascii) : bool := Ascii.eqb c "<" || Ascii.eqb c ">".

(** The characters removed by Python's argument-less [strip()] from a
    header value, which [http.client] decodes as Latin-1 (one character per
    byte): tab, LF, VT, FF, CR, the separators 0x1c-0x1f, the space, NEL
    (U+0085) and NO-BREAK SPACE (U+00A0). *)
Definition is_space (c : ascii) : bool :=
  let n := nat_of_ascii c in
  ((9 <=? n) && (n <=? 13))%nat || ((28 <=? n) && (n <=? 32))%nat ||
  (n =? 133)%nat || (n =? 160)%nat.

(** First and last characters. *)
Definition first_char (s : string) : option ascii :=
  match s with EmptyString => None | String c _ => Some c end.

Fixpoint last_char (s : string) : option ascii :=
  match s with
  | EmptyString => None
  | String c EmptyString => Some c
  | String _ s' => last_char s'
  end.

(** Python truthiness of a string. *)
Definition truthy (s : string) : bool :=
  match s with EmptyString => false | _ => true end.

End PyStr.

(** ** The Fetcher: [fetch_data] *)
Module Fetcher.
Import PyStr.
Open Scope Z_scope.

Section FetchData.

(** The elements of the JSON arrays returned by the API. *)
Variable A : Type.

(** A rate-limit header value as seen through Python's [int(...)]:
    [HInt z] when [int] parses it to [z], [HBad] when [int] raises
    [ValueError]. *)
Inductive hval := HInt (z : Z) | HBad.

(** One HTTP response of [requests.get]: the status code, the JSON array
    of [response.json()] (read on status 200 only), the [Link],
    [X-RateLimit-Remaining] and [X-RateLimit-Reset] headers ([None] when
    absent), and the milliseconds that pass between issuing the request and
    handling its response. *)
Record response := mkResponse {
  status : Z;
  body : list A;
  link : option string;
  rl_remaining : option hval;
  rl_reset : option hval;
  latency : Z
}.

(** Observable effects: a request issued to a URL at a clock reading (in
    milliseconds), and a call [time.sleep(d)]. *)
Inductive event :=
| EReq (url : string) (t : Z)
| ESleep (d : Z).

Inductive exc := KeyError | ValueError.

(** How a call ends: [return all_data], an exception, or the model's
    environment has no further response to give (not a program behaviour). *)
Inductive outcome :=
| Returned (all_data : list A)
| Raised (e : exc)
| NoMoreResponses (all_data : list A).

(** The text [rel="next"]. *)
Definition rel_next : string := "rel=" ++ dq ++ "next" ++ dq.

(** Lines 39-48: the next URL from the [Link] header. *)
Definition next_url (link_header : option string) : option string :=
  match link_header with
  | None => None
  | Some h =>
      if truthy h then
        match filter (contains rel_next) (split_cs h) with
        | [] => None
        | l :: _ => Some (strip is_space (strip is_angle (before_semi l)))
        end
      else None
  end.

(** Lines 31-67: the [while url:] loop.  The clock [now] is in milliseconds;
    [int(time.time())] is [t / 1000]; each iteration consumes the next
    response of [rs]. *)
Fixpoint fetch_loop (rs : list response) (url : option string) (now : Z)
    (all_data : list A) : list event * outcome :=
  match url with
  | None => ([], Returned all_data)
  | Some u =>
      if negb (truthy u) then ([], Returned all_data) else
      match rs with
      | [] => ([], NoMoreResponses all_data)
      | r :: rs' =>
          let t := now + latency r in
          let rest :=
            if status r =? 200 then
              fetch_loop rs' (next_url (link r)) t (all_data ++ body r)
            else if status r =? 403 then
              match rl_remaining r with
              | None => ([], Returned all_data)
              | Some HBad => ([], Raised ValueError)
              | Some (HInt z) =>
                  if z =? 0 then
                    match rl_reset r with
                    | None => ([], Raised KeyError)
                    | Some HBad => ([], Raised ValueError)
                    | Some (HInt reset_time) =>
                        let sleep_time := reset_time - t / 1000 + 1 in
                        if sleep_time <? 0 then ([ESleep sleep_time], Raised ValueError)
                        else
                          let (tr, o) :=
                            fetch_loop rs' (Some u) (t + 1000 * sleep_time) all_data in
                          (ESleep sleep_time :: tr, o)
                    end
                  else ([], Returned all_data)
              end
            else ([], Returned all_data)
          in
          (EReq u now :: fst rest, snd rest)
      end
  end.

Definition fetch_data (rs : list response) (url : string) (now : Z) : list event * outcome :=
  fetch_loop rs (Some url) now [].

(** The URLs requested, in order. *)
Fixpoint req_urls (tr : list event) : list string :=
  match tr with
  | [] => []
  | EReq u _ :: tr' => u :: req_urls tr'
  | ESleep _ :: tr' => req_urls tr'
  end.

(** ** Response streams made of pages

    A well-formed [Link] entry for URL [v]: [<v>; rel="next"]. *)
Definition mk_link (v : string) : string := "<" ++ v ++ ">; " ++ rel_next.

(** A URL that survives the parsing of line 44 unchanged: nonempty, no
    [", "] and no [";"] inside, and no angle bracket or white space at either
    end. *)
Definition url_ok (v : string) : bool :=
  match first_char v, last_char v with
  | Some a, Some b =>
      negb (is_angle a || is_space a) && negb (is_angle b || is_space b) &&
      negb (contains ", " v) && negb (contains ";" v)
  | _, _ => false
  end.

(** The [Link] header names [v] as the next page: its first entry marked
    [rel="next"] is [<v>; rel="next"].  Entries without that mark (GitHub's
    [rel="prev"] and [rel="first"]) may come before it, and any entries may
    follow it. *)
Definition links_to (l : option string) (v : string) : Prop :=
  url_ok v = true /\
  exists pre rest, l = Some (pre ++ mk_link v ++ rest) /\
    (pre = EmptyString \/ exists p, pre = p ++ ", " /\ contains rel_next p = false) /\
    (rest = EmptyString \/ exists r, rest = ", " ++ r).

(** The [Link] header has no [rel="next"] entry (or is absent). *)
Definition no_next (l : option string) : Prop :=
  l = None \/ exists h, l = Some h /\ contains rel_next h = false.

(** A quota-exhaustion response: 403, [X-RateLimit-Remaining: 0], and an
    integer [X-RateLimit-Reset]. *)
Definition quota_resp (q : response) : Prop :=
  status q = 403 /\ rl_remaining q = Some (HInt 0) /\ exists T, rl_reset q = Some (HInt T).

(** One page: the URL it lives at, the quota-exhaustion responses served
    before it, and its 200 response. *)
Record page := mkPage {
  pg_url : string;
  pg_retries : list response;
  pg_ok : response
}.

Definition page_ok (p : page) : Prop :=
  Forall quota_resp (pg_retries p) /\ status (pg_ok p) = 200.

Definition page_stream (p : page) : list response := pg_retries p ++ [pg_ok p].

Definition stream (ps : list page) : list response := flat_map page_stream ps.

(** The URLs a page is requested at: once per retry, then once more. *)
Definition page_reqs (p : page) : list string :=
  repeat (pg_url p) (S (List.length (pg_retries p))).

Definition page_data (ps : list page) : list A := flat_map (fun p => body (pg_ok p)) ps.

(** [linked u ps v]: the pages [ps] start at URL [u], each links to the
    next one, and the last one links to [v]. *)
Inductive linked : string -> list page -> string -> Prop :=
| linked_nil u : linked u [] u
| linked_cons u p ps v w :
    pg_url p = u -> page_ok p -> links_to (link (pg_ok p)) w ->
    linked w ps v -> linked u (p :: ps) v.

(** Every response of a stream takes a nonnegative time. *)
Definition latencies_ok (rs : list response) : Prop := Forall (fun r => 0 <= latency r) rs.

(** No [time.sleep] of the trace received a negative duration, so none of
    them raised. *)
Definition sleeps_ok (tr : list event) : bool :=
  forallb (fun e => match e with ESleep d => 0 <=? d | EReq _ _ => true end) tr.

(** The times at which requests are issued. *)
Fixpoint req_times (tr : list event) : list Z :=
  match tr with
  | [] => []
  | EReq _ t :: tr' => t :: req_times tr'
  | ESleep _ :: tr' => req_times tr'
  end.

End FetchData.

Arguments Returned {A}.
Arguments Raised {A}.
Arguments NoMoreResponses {A}.
Arguments mkResponse {A}.
Arguments mkPage {A}.
Arguments linked {A}.
Arguments linked_nil {A}.
Arguments linked_cons {A}.
Arguments pg_url {A}.
Arguments pg_retries {A}.
Arguments pg_ok {A}.
Arguments status {A}.
Arguments body {A}.
Arguments link {A}.
Arguments rl_remaining {A}.
Arguments rl_reset {A}.
Arguments latency {A}.
Arguments fetch_loop {A}.
Arguments fetch_data {A}.
Arguments quota_resp {A}.
Arguments page_ok {A}.
Arguments page_stream {A}.
Arguments stream {A}.
Arguments page_reqs {A}.
Arguments page_data {A}.
Arguments latencies_ok {A}.
End Fetcher.

(** ** The Aggregator: [data_transformation.py] *)
Module Aggregator.
Import PyStr.
Open Scope Z_scope.

(** Whether a JSON record has a key: [None] when it has not, [Some v]
    with the value [v] ([None] again for a JSON null) when it has. *)
Definition is_key {T} (o : option T) : bool := if o then true else false.

(** The value a column takes in a row: null when the key is missing. *)
Definition key_value {T} (o : option (option T)) : option T :=
  match o with Some v => v | None => None end.

(** The [owner] object of a repository record. *)
Record owner_obj := mkOwnerObj { ow_login : option (option string) }.

(** A raw repository record, reduced to the keys the job reads, each one
    possibly missing ([None]) or null ([Some None]); [rj_owner = None]: the
    ["owner"] key is missing or null. *)
Record raw_repository := mkRawRepo {
  rj_full_name : option (option string);
  rj_id : option (option Z);
  rj_name : option (option string);
  rj_owner : option owner_obj
}.

(** The column values of a repository row. *)
Definition full_name (r : raw_repository) : option string := key_value (rj_full_name r).
Definition id (r : raw_repository) : option Z := key_value (rj_id r).
Definition name (r : raw_repository) : option string := key_value (rj_name r).
Definition owner_login (r : raw_repository) : option string :=   (* owner.login *)
  match rj_owner r with Some o => key_value (ow_login o) | None => None end.

(** A record that has all of these keys, as the GitHub repository payload
    does. *)
Definition mkRawRepository (fn : option string) (i : option Z) (n : option string)
    (ol : option string) : raw_repository :=
  mkRawRepo (Some fn) (Some i) (Some n) (Some (mkOwnerObj (Some ol))).

(** Spark's JSON schema inference for [repo_raw_df] (lines 24-30): the
    column [full_name] (likewise [id], [name]) resolves when some record has
    that key, and [owner.login] when some record has an [owner] object with
    a ["login"] key; otherwise [select] raises [AnalysisException].  An
    empty array has no column at all. *)
Definition schema_has_repo_columns (repos : list raw_repository) : bool :=
  existsb (fun r => is_key (rj_full_name r)) repos &&
  existsb (fun r => is_key (rj_id r)) repos &&
  existsb (fun r => is_key (rj_name r)) repos &&
  existsb (fun r => match rj_owner r with Some o => is_key (ow_login o) | None => false end) repos.

(** The nested [head.repo] object of a pull request.  [ro_id = None]: the
    object has no ["id"] key; [Some None]: ["id": null]. *)
Record repo_obj := mkRepoObj { ro_id : option (option Z) }.

(** The nested [head] object; [ho_repo = None]: ["repo"] missing or null
    (GitHub sends ["repo": null] when the fork was deleted). *)
Record head_obj := mkHeadObj { ho_repo : option repo_obj }.

(** A raw pull-request record as saved by [fetch_pull_requests]: [head]
    ([None]: missing or null), [merged_at] ([None]: no such key,
    [Some None]: null) and the [repository] tag added at line 113. *)
Record pull_request := mkPR {
  pr_head : option head_obj;
  pr_merged_at : option (option string);
  repository : string
}.

(** The value of the [merged_at] column. *)
Definition merged_at (p : pull_request) : option string := key_value (pr_merged_at p).

(** A record with a [merged_at] key, as every pull request GitHub sends. *)
Definition mkPullRequest (h : option head_obj) (m : option string) (repo : string) : pull_request :=
  mkPR h (Some m) repo.

(** The column [merged_at] of [pr_raw_df] resolves when some record has
    that key; otherwise the query of lines 35-45 raises
    [AnalysisException]. *)
Definition schema_has_merged_at (prs : list pull_request) : bool :=
  existsb (fun p => is_key (pr_merged_at p)) prs.

(** Outcome of a Spark action: rows, or an [AnalysisException] raised when
    a column path cannot be resolved against the inferred schema. *)
Inductive spark_result (T : Type) := SOk (v : T) | AnalysisException.
Arguments SOk {T}.
Arguments AnalysisException {T}.

(** Lines 25-30: [repo_filtered_df]. *)
Record repo_row := mkRepoRow {
  organization_name : option string;
  repository_id : option Z;
  repository_name : option string;
  repository_owner : option string
}.

(** [split(col, "/").getItem(0)]: the text before the first slash. *)
Definition split_slash_0 (s : string) : string := take_until "/" s.

Definition repo_filtered (r : raw_repository) : repo_row :=
  mkRepoRow (option_map split_slash_0 (full_name r)) (id r) (name r) (owner_login r).

(** The value of [head.repo.id] in a row: null when any step is missing or
    null. *)
Definition head_repo_id (p : pull_request) : option Z :=
  match pr_head p with
  | Some h =>
      match ho_repo h with
      | Some r => match ro_id r with Some v => v | None => None end
      | None => None
      end
  | None => None
  end.

(** Spark's JSON schema inference gives [head.repo] a struct type with an
    [id] field only when some record has a [head.repo] object with an ["id"]
    key; otherwise [head.repo.id] does not resolve. *)
Definition has_head_repo_id_key (p : pull_request) : bool :=
  match pr_head p with
  | Some h => match ho_repo h with Some r => if ro_id r then true else false | None => false end
  | None => false
  end.

Definition schema_has_head_repo_id (prs : list pull_request) : bool :=
  existsb has_head_repo_id_key prs.

(** Grouping keys: SQL [GROUP BY] puts all nulls in one group. *)
Definition key_eq_dec : forall x y : option Z, {x = y} + {x <> y}.
Proof. decide equality; apply Z.eq_dec. Defined.

Definition key_eqb (x y : option Z) : bool := if key_eq_dec x y then true else false.

(** [MAX] over a string column: nulls are ignored, null when all are null;
    strings compare lexicographically. *)
Definition max_step (acc x : option string) : option string :=
  match x, acc with
  | None, _ => acc
  | Some v, None => Some v
  | Some v, Some m => Some (if (m <? v)%string then v else m)
  end.

Definition sql_max (l : list (option string)) : option string := fold_left max_step l None.

(** Lines 35-45: one row of [pr_aggregated_df]. *)
Record agg_row := mkAggRow {
  a_repository_id : option Z;
  num_prs : Z;
  num_prs_merged : Z;
  a_merged_at : option string
}.

Definition group_of (prs : list pull_request) (k : option Z) : list pull_request :=
  filter (fun p => key_eqb (head_repo_id p) k) prs.

Definition aggregate_group (prs : list pull_request) (k : option Z) : agg_row :=
  let g := group_of prs k in
  mkAggRow k
    (Z.of_nat (List.length g))                                             (* COUNT( * ) *)
    (fold_right Z.add 0 (map (fun p => if merged_at p then 1 else 0) g))  (* SUM(CASE ...) *)
    (sql_max (map merged_at g)).                                           (* MAX(merged_at) *)

(** One row per distinct key ([GROUP BY head.repo.id]). *)
Definition pr_aggregated (prs : list pull_request) : list agg_row :=
  map (aggregate_group prs) (nodup key_eq_dec (map head_repo_id prs)).

(** Line 47: the columns of [pr_aggregated_df.join(repo_filtered_df,
    "repository_id")], an inner equi-join in which a null key matches
    nothing. *)
Record joined_row := mkJoinedRow {
  j_repository_id : Z;
  j_num_prs : Z;
  j_num_prs_merged : Z;
  j_merged_at : option string;
  j_organization_name : option string;
  j_repository_name : option string;
  j_repository_owner : option string
}.

Definition join (aggs : list agg_row) (repos : list repo_row) : list joined_row :=
  flat_map (fun a =>
    flat_map (fun r =>
      match a_repository_id a, repository_id r with
      | Some x, Some y =>
          if x =? y then
            [mkJoinedRow x (num_prs a) (num_prs_merged a) (a_merged_at a)
               (organization_name r) (repository_name r) (repository_owner r)]
          else []
      | _, _ => []
      end) repos) aggs.

(** ASCII [lower]. *)
Definition lower_char (c : ascii) : ascii :=
  let n := nat_of_ascii c in
  if ((65 <=? n) && (n <=? 90))%nat then ascii_of_nat (n + 32) else c.

Fixpoint lower (s : string) : string :=
  match s with
  | EmptyString => EmptyString
  | String c s' => String (lower_char c) (lower s')
  end.

(** SQL three-valued [AND] ([None] is null). *)
Definition sql_and (a b : option bool) : option bool :=
  match a, b with
  | Some false, _ | _, Some false => Some false
  | Some true, Some true => Some true
  | _, _ => None
  end.

(** [when(cond, True).otherwise(False)]: a null condition takes the
    [otherwise] branch. *)
Definition when_otherwise (c : option bool) : bool :=
  match c with Some true => true | _ => false end.

(** Lines 49-56: the [is_compliant] column. *)
Definition is_compliant_of (j : joined_row) : bool :=
  when_otherwise
    (sql_and (Some (j_num_prs j =? j_num_prs_merged j))
             (option_map (contains "scytale") (option_map lower (j_repository_owner j)))).

(** Lines 58-67: a row of the selected [final_df]. *)
Record compliance_record := mkComplianceRecord {
  c_organization_name : option string;
  c_repository_id : Z;
  c_repository_name : option string;
  c_repository_owner : option string;
  c_num_prs : Z;
  c_num_prs_merged : Z;
  c_merged_at : option string;
  c_is_compliant : bool
}.

Definition final_of (j : joined_row) : compliance_record :=
  mkComplianceRecord (j_organization_name j) (j_repository_id j) (j_repository_name j)
    (j_repository_owner j) (j_num_prs j) (j_num_prs_merged j) (j_merged_at j)
    (is_compliant_of j).

(** The whole job, from the two raw datasets to [final_df]: it fails with
    [AnalysisException] when a column it reads does not resolve. *)
Definition final_df (repos : list raw_repository) (prs : list pull_request)
    : spark_result (list compliance_record) :=
  if schema_has_repo_columns repos && schema_has_merged_at prs && schema_has_head_repo_id prs then
    SOk (map final_of (join (pr_aggregated prs) (map repo_filtered repos)))
  else AnalysisException.

(** Column values, to read a row as Spark lays it out. *)
Inductive sql_value := VNull | VStr (s : string) | VInt (z : Z) | VBool (b : bool).

Definition vstr (o : option string) : sql_value := match o with Some s => VStr s | None => VNull end.

(** Lines 58-67: [final_df.select(...)] as named columns, in order. *)
Definition select_row (c : compliance_record) : list (string * sql_value) :=
  [("organization_name", vstr (c_organization_name c));
   ("repository_id", VInt (c_repository_id c));
   ("repository_name", vstr (c_repository_name c));
   ("repository_owner", vstr (c_repository_owner c));
   ("num_prs", VInt (c_num_prs c));
   ("num_prs_merged", VInt (c_num_prs_merged c));
   ("merged_at", vstr (c_merged_at c));
   ("is_compliant", VBool (c_is_compliant c))].

(** Lines 70-72: [write.partitionBy("repository_name")]: each row goes to
    the partition of its [repository_name] value, and that column is dropped
    from the stored columns. *)
Definition partition_row (c : compliance_record) : sql_value * list (string * sql_value) :=
  (vstr (c_repository_name c),
   filter (fun kv => negb (fst kv =? "repository_name")%string) (select_row c)).

End Aggregator.

(** ** Concrete responses used to exercise the Fetcher *)
Module Fixtures.
Import Fetcher.
Open Scope Z_scope.

(** A quota-exhaustion 403 whose reset time (epoch 0) lies in the past. *)
Definition q_stale : response nat := mkResponse 403 [] None (Some (HInt 0)) (Some (HInt 0)) 0.

(** A quota-exhaustion 403 that resets at epoch second 20. *)
Definition q_fresh : response nat := mkResponse 403 [] None (Some (HInt 0)) (Some (HInt 20)) 5.

(** A 403 whose [X-RateLimit-Remaining] header is not an integer. *)
Definition bad_remaining : response nat := mkResponse 403 [] None (Some HBad) None 5.

(** A server error. *)
Definition server_error : response nat := mkResponse 500 [] None None None 5.

(** A 200 page linking to ["v"], and a last 200 page. *)
Definition ok1 : response nat := mkResponse 200 [1%nat; 2%nat] (Some (mk_link "v")) None None 5.
Definition ok2 : response nat := mkResponse 200 [3%nat] None None None 5.

(** A 200 page whose [Link] header lists a [rel="prev"] entry before the
    [rel="next"] one, as GitHub does on every page after the first. *)
Definition ok1_prev : response nat :=
  mkResponse 200 [1%nat; 2%nat] (Some ("<p>; rel=" ++ PyStr.dq ++ "prev" ++ PyStr.dq ++ ", " ++ mk_link "v")%string)
    None None 5.

(** A quota-exhaustion 403 whose reset time lies far in the future
    (epoch second 4102444800, in the year 2100). *)
Definition q_far : response nat :=
  mkResponse 403 [] None (Some (HInt 0)) (Some (HInt 4102444800)) 5.

Definition p1 : page nat := mkPage "u" [] ok1.
Definition p1_prev : page nat := mkPage "u" [] ok1_prev.
Definition p2 : page nat := mkPage "v" [q_fresh] ok2.

(** The spec's scenario: repository 1 of the "scytale" organisation, one
    merged and one open pull request, and a pull request from a deleted
    fork ([head.repo] null). *)
Definition repo_a : Aggregator.raw_repository :=
  Aggregator.mkRawRepository (Some "scytale/repoA") (Some 1) (Some "repoA") (Some "scytale").

Definition pr_on (k : Z) (m : option string) : Aggregator.pull_request :=
  Aggregator.mkPullRequest
    (Some (Aggregator.mkHeadObj (Some (Aggregator.mkRepoObj (Some (Some k)))))) m "repoA".

Definition pr_orphan : Aggregator.pull_request :=
  Aggregator.mkPullRequest (Some (Aggregator.mkHeadObj None)) None "repoA".

End Fixtures.

(** ** The harvest: [fetch_repositories], [fetch_pull_requests],
    [save_df_as_json] and [main] *)
Module Harvest.
Import PyStr Fetcher.
Open Scope Z_scope.

(** A JSON value as [json.loads] / [response.json()] returns it: objects
    are Python dicts, kept as association lists in insertion order with
    distinct keys.  (Numbers are only carried along, never read, so the
    integers stand for all of them.) *)
#[warnings="-register-all"] Inductive json :=
| JNull
| JBool (b : bool)
| JInt (z : Z)
| JStr (s : string)
| JArr (l : list json)
| JObj (d : list (string * json)).

(** [d.get(k)] on a dict. *)
Fixpoint dict_get (k : string) (d : list (string * json)) : option json :=
  match d with
  | [] => None
  | (k', v) :: d' => if String.eqb k k' then Some v else dict_get k d'
  end.

(** [d[k] = v]: an existing key keeps its place, a new one goes last. *)
Fixpoint dict_set (k : string) (v : json) (d : list (string * json)) : list (string * json) :=
  match d with
  | [] => [(k, v)]
  | (k', v') :: d' => if String.eqb k k' then (k, v) :: d' else (k', v') :: dict_set k v d'
  end.

(** The Python exceptions the module can raise. *)
Inductive pyexc := PyKeyError | PyValueError | PyTypeError | PyAttributeError.

Definition lift_exc (e : exc) : pyexc :=
  match e with KeyError => PyKeyError | ValueError => PyValueError end.

(** Observable effects: the Fetcher's requests and sleeps, a directory
    creation, and a [json.dump] of a list to a file path.  The [print]
    calls are not recorded. *)
Inductive hev :=
| HNet (e : event)
| HMkdir (path : string)
| HDump (path : string) (data : list json).

(** How a computation ends.  [HOut]: the environment has no further
    response to give; [HBeyond]: a repository name that is not a JSON
    string reaches an f-string, whose [str()] the model does not cover.
    Neither is a program behaviour. *)
Inductive hres (T : Type) :=
| HOk (v : T)
| HExc (e : pyexc)
| HOut
| HBeyond.
Arguments HOk {T}.
Arguments HExc {T}.
Arguments HOut {T}.
Arguments HBeyond {T}.

(** The environment: the responses still to come and the clock (ms). *)
Definition world : Type := (list (response json) * Z)%type.

(** The effect monad: a run from a world gives the effects, the result and
    the world afterwards. *)
Definition M (T : Type) : Type := world -> list hev * hres T * world.

Definition ret {T} (x : T) : M T := fun w => ([], HOk x, w).

Definition raise {T} (e : pyexc) : M T := fun w => ([], HExc e, w).

Definition beyond {T} : M T := fun w => ([], HBeyond, w).

Definition emit (es : list hev) : M unit := fun w => (es, HOk tt, w).

Definition bind {T U} (m : M T) (f : T -> M U) : M U := fun w =>
  match m w with
  | (tr, HOk x, w') =>
      match f x w' with (tr', r, w'') => ((tr ++ tr')%list, r, w'') end
  | (tr, HExc e, w') => (tr, HExc e, w')
  | (tr, HOut, w') => (tr, HOut, w')
  | (tr, HBeyond, w') => (tr, HBeyond, w')
  end.

Notation "x <- m ;; k" := (bind m (fun x => k)) (at level 61, m at next level, right associativity).
Notation "m ;;; k" := (bind m (fun _ => k)) (at level 61, right associativity).

(** Lines 31-67 again, returning also the responses left and the clock at
    the end, so that calls can be chained.  Same branches as [fetch_loop]. *)
Fixpoint fetch_loop_w (rs : list (response json)) (url : option string) (now : Z)
    (all_data : list json) : list event * outcome json * list (response json) * Z :=
  match url with
  | None => ([], Returned all_data, rs, now)
  | Some u =>
      if negb (truthy u) then ([], Returned all_data, rs, now) else
      match rs with
      | [] => ([], NoMoreResponses all_data, [], now)
      | r :: rs' =>
          let t := now + latency r in
          match
            (if status r =? 200 then
               fetch_loop_w rs' (next_url (link r)) t (all_data ++ body r)%list
             else if status r =? 403 then
               match rl_remaining r with
               | None => ([], Returned all_data, rs', t)
               | Some HBad => ([], Raised ValueError, rs', t)
               | Some (HInt z) =>
                   if z =? 0 then
                     match rl_reset r with
                     | None => ([], Raised KeyError, rs', t)
                     | Some HBad => ([], Raised ValueError, rs', t)
                     | Some (HInt reset_time) =>
                         let sleep_time := reset_time - t / 1000 + 1 in
                         if sleep_time <? 0 then ([ESleep sleep_time], Raised ValueError, rs', t)
                         else
                           match fetch_loop_w rs' (Some u) (t + 1000 * sleep_time) all_data with
                           | (tr, o, rs2, t2) => (ESleep sleep_time :: tr, o, rs2, t2)
                           end
                     end
                   else ([], Returned all_data, rs', t)
               end
             else ([], Returned all_data, rs', t))
          with
          | (tr, o, rs2, t2) => (EReq u now :: tr, o, rs2, t2)
          end
      end
  end.

(** Line 20: [fetch_data(url)] as a step of the monad. *)
Definition fetch_data_m (url : string) : M (list json) := fun w =>
  match fetch_loop_w (fst w) (Some url) (snd w) [] with
  | (tr, o, rs', t') =>
      (map HNet tr,
       match o with
       | Returned l => HOk l
       | Raised e => HExc (lift_exc e)
       | NoMoreResponses _ => HOut
       end,
       (rs', t'))
  end.

(** Lines 88-96. *)
Definition repos_url (organization : string) : string :=
  "https://api.github.com/orgs/" ++ organization ++ "/repos".

Definition fetch_repositories (organization : string) : M (list json) :=
  fetch_data_m (repos_url organization).

(** Line 109. *)
Definition prs_url (organization repo : string) : string :=
  "https://api.github.com/repos/" ++ organization ++ "/" ++ repo ++ "/pulls?state=all".

(** [f"{repo}"] for the values the model covers. *)
Definition py_str (j : json) : option string :=
  match j with JStr s => Some s | _ => None end.

(** [pr[key] = value]: a dict takes the key; any other JSON value raises
    [TypeError]. *)
Definition setitem (key : string) (value : json) (pr : json) : option json :=
  match pr with
  | JObj d => Some (JObj (dict_set key value d))
  | _ => None
  end.

(** Lines 112-113: [for pr in prs: pr["repository"] = repo]. *)
Fixpoint tag_all (repo : json) (prs : list json) : M (list json) :=
  match prs with
  | [] => ret []
  | pr :: prs' =>
      match setitem "repository" repo pr with
      | Some pr' => l <- tag_all repo prs' ;; ret (pr' :: l)
      | None => raise PyTypeError
      end
  end.

(** Lines 107-115: the loop over the repositories, with [pr_data] as the
    accumulator. *)
Fixpoint harvest (organization : string) (repositories : list json) (pr_data : list json)
    : M (list json) :=
  match repositories with
  | [] => ret pr_data
  | repo :: repositories' =>
      match py_str repo with
      | None => beyond
      | Some name =>
          prs <- fetch_data_m (prs_url organization name) ;;
          match prs with
          | [] => harvest organization repositories' pr_data
          | _ :: _ =>
              tagged <- tag_all repo prs ;;
              harvest organization repositories' (pr_data ++ tagged)%list
          end
      end
  end.

Definition fetch_pull_requests (organization : string) (repositories : list json) : M (list json) :=
  harvest organization repositories [].

(** [os.path.join(path, filename)] on POSIX. *)
Definition os_path_join (path filename : string) : string :=
  if starts_with "/" filename then filename
  else match last_char path with
       | None => filename
       | Some c => if Ascii.eqb c "/" then path ++ filename else path ++ "/" ++ filename
       end.

(** Lines 70-85. *)
Definition save_df_as_json (data : list json) (path filename : string) : M unit :=
  match data with
  | [] => ret tt
  | _ :: _ => emit [HMkdir path; HDump (os_path_join path filename) data]
  end.

(** [repo["name"]]: [KeyError] on a dict without the key, [TypeError] on
    any other JSON value. *)
Definition getitem (key : string) (j : json) : M json :=
  match j with
  | JObj d => match dict_get key d with Some v => ret v | None => raise PyKeyError end
  | _ => raise PyTypeError
  end.

Fixpoint map_m {T U} (f : T -> M U) (l : list T) : M (list U) :=
  match l with
  | [] => ret []
  | x :: l' => y <- f x ;; ys <- map_m f l' ;; ret (y :: ys)
  end.

(** Python's [str.lower()] on the code points 0-255: the ASCII capitals
    and the Latin-1 capitals U+00C0-U+00DE except U+00D7. *)
Definition py_lower_char (c : ascii) : ascii :=
  let n := nat_of_ascii c in
  if ((65 <=? n) && (n <=? 90))%nat || ((192 <=? n) && (n <=? 222) && negb (n =? 215))%nat
  then ascii_of_nat (n + 32) else c.

Fixpoint py_lower (s : string) : string :=
  match s with
  | EmptyString => EmptyString
  | String c s' => String (py_lower_char c) (py_lower s')
  end.

(** [s.replace("-", "_")]. *)
Fixpoint replace_dash (s : string) : string :=
  match s with
  | EmptyString => EmptyString
  | String c s' => String (if Ascii.eqb c "-" then "_"%char else c) (replace_dash s')
  end.

(** [organization.lower().replace("-", "_")]: [AttributeError] when the
    variable is unset ([None]). *)
Definition file_stem (organization : option string) : M string :=
  match organization with
  | Some o => ret (replace_dash (py_lower o))
  | None => raise PyAttributeError
  end.

(** [f"{organization}"]: an unset variable prints as [None]. *)
Definition org_str (organization : option string) : string :=
  match organization with Some o => o | None => "None" end.

(** [Path(p) / s]. *)
Definition path_div (p s : string) : string :=
  match last_char p with
  | Some c => if Ascii.eqb c "/" then p ++ s else p ++ "/" ++ s
  | None => s
  end.

(** Lines 118-145: [main], for the environment variable
    [GITHUB_ORGANIZATION] ([None] when unset) and the resolved project root
    [Path(__file__).resolve().parents[2]]. *)
Definition main (organization : option string) (project_root : string) : M unit :=
  let dynamic_path := path_div (path_div project_root "data") "input" in
  emit [HMkdir dynamic_path] ;;;
  repos_data <- fetch_repositories (org_str organization) ;;
  stem <- file_stem organization ;;
  save_df_as_json repos_data dynamic_path (stem ++ "_repositories.json") ;;;
  match repos_data with
  | [] => ret tt
  | _ :: _ =>
      repositories <- map_m (getitem "name") repos_data ;;
      pr_data <- fetch_pull_requests (org_str organization) repositories ;;
      stem' <- file_stem organization ;;
      save_df_as_json pr_data dynamic_path (stem' ++ "_pull_requests.json")
  end.

(** [tagged_as repo p q]: [q] is the record [p] after line 113: the same dict
    with ["repository"] set to [repo]. *)
Definition tagged_as (repo : json) (p q : json) : Prop :=
  exists d d', p = JObj d /\ q = JObj d' /\ dict_get "repository" d' = Some repo /\
    forall k, k <> "repository" -> dict_get k d' = dict_get k d.

End Harvest.

(** ** Concrete records and responses used to exercise the harvest *)
Module HarvestFixtures.
Import Fetcher Harvest.
Open Scope Z_scope.

(** A pull-request record and a repository record. *)
Definition pr_rec (n : Z) : json := JObj [("number", JInt n)].
Definition repo_rec (nm : string) : json := JObj [("name", JStr nm)].

(** A last page carrying [l], a server error, and a quota-exhaustion 403
    without [X-RateLimit-Reset]. *)
Definition ok_json (l : list json) : response json := mkResponse 200 l None None None 5.
Definition fail_json : response json := mkResponse 500 [] None None None 5.
Definition noreset_json : response json := mkResponse 403 [] None (Some (HInt 0)) None 5.

End HarvestFixtures.

(** * Proofs *)

(** ** Facts about the Link-header parsing *)
Module LinkFacts.
Import PyStr Fetcher.

Lemma str_app_assoc (a b c : string) : (a ++ b) ++ c = a ++ (b ++ c).
Proof. induction a as [|x a IH]; simpl; [reflexivity | now rewrite IH]. Qed.

Lemma str_app_nil (a : string) : a ++ EmptyString = a.
Proof. induction a as [|x a IH]; simpl; [reflexivity | now rewrite IH]. Qed.

Lemma starts_with_self (n b : string) : starts_with n (n ++ b) = true.
Proof. induction n as [|c n IH]; simpl; [reflexivity | now rewrite Ascii.eqb_refl, IH]. Qed.

Lemma starts_with_app (n s b : string) :
  starts_with n s = true -> starts_with n (s ++ b) = true.
Proof.
  revert s; induction n as [|c n IH]; intros [|d s] H; simpl in *; try easy.
  apply andb_prop in H as [H1 H2]. now rewrite H1, (IH s H2).
Qed.

Lemma contains_app_l (n a s : string) : contains n s = true -> contains n (a ++ s) = true.
Proof.
  induction a as [|c a IH]; intro H; simpl; [exact H|].
  rewrite (IH H). apply orb_true_r.
Qed.

Lemma contains_app_r (n s b : string) : contains n s = true -> contains n (s ++ b) = true.
Proof.
  induction s as [|c s IH]; intro H.
  - simpl in H. apply orb_prop in H as [H|H]; [|discriminate].
    destruct n; [destruct b; reflexivity | discriminate].
  - simpl in H |- *. apply orb_prop in H as [H|H].
    + change (String c (s ++ b)) with (String c s ++ b).
      now rewrite (starts_with_app _ _ _ H).
    + now rewrite (IH H), orb_true_r.
Qed.

Lemma contains_self (n a b : string) : contains n (a ++ n ++ b) = true.
Proof.
  apply contains_app_l. destruct n as [|c n]; simpl; [now destruct b|].
  now rewrite Ascii.eqb_refl, starts_with_self.
Qed.

Lemma hd_cons_head (c : ascii) (l : list string) :
  hd EmptyString (cons_head c l) = String c (hd EmptyString l).
Proof. now destruct l. Qed.

Lemma split_cs_step (c d : ascii) (r : string) :
  split_cs (String c (String d r)) =
  if Ascii.eqb c "," && Ascii.eqb d " " then EmptyString :: split_cs r
  else cons_head c (split_cs (String d r)).
Proof. reflexivity. Qed.

Lemma split_cs_nonempty (s : string) : exists x xs, split_cs s = x :: xs.
Proof.
  destruct s as [|c [|d r]]; simpl; eauto.
  destruct (Ascii.eqb c "," && Ascii.eqb d " "); [eauto|].
  match goal with |- context [cons_head c ?l] => destruct l end; simpl; eauto.
Qed.

(** The first piece of [split(", ")] extends over a prefix that holds no
    separator. *)
Lemma split_cs_hd_app (u t : string) :
  contains ", " u = false -> first_char t <> Some " "%char ->
  hd EmptyString (split_cs (u ++ t)) = u ++ hd EmptyString (split_cs t).
Proof.
  intros Hu Ht. induction u as [|c u IH]; [reflexivity|].
  simpl in Hu. apply orb_false_elim in Hu as [Hs Hu].
  change (String c u ++ t) with (String c (u ++ t)).
  destruct (u ++ t) as [|d r] eqn:E.
  - destruct u; [|discriminate]. simpl in E; subst t. reflexivity.
  - rewrite split_cs_step.
    destruct (Ascii.eqb c "," && Ascii.eqb d " ") eqn:Ecd.
    + exfalso. apply andb_prop in Ecd as [E1 E2].
      apply Ascii.eqb_eq in E1, E2; subst c d.
      destruct u as [|x u]; simpl in E.
      * subst t. apply Ht. reflexivity.
      * injection E as -> _. simpl in Hs. discriminate.
    + rewrite hd_cons_head, IH by exact Hu. reflexivity.
Qed.

(** Every piece of [split(", ")] is a substring; the first one a prefix. *)
Lemma split_cs_pieces (h : string) :
  (exists b, h = hd EmptyString (split_cs h) ++ b) /\
  (forall x, In x (split_cs h) -> exists a b, h = a ++ x ++ b).
Proof.
  remember (String.length h) as n eqn:Hn.
  assert (Hle : (String.length h <= n)%nat) by lia. clear Hn.
  revert h Hle; induction n as [n IHn] using lt_wf_ind; intros h Hle.
  destruct h as [|c [|d r]].
  - split; [exists EmptyString; reflexivity|].
    intros x [<-|[]]. exists EmptyString, EmptyString. reflexivity.
  - split; [exists EmptyString; reflexivity|].
    intros x [<-|[]]. exists EmptyString, EmptyString. reflexivity.
  - rewrite split_cs_step. destruct (Ascii.eqb c "," && Ascii.eqb d " ") eqn:Ecd.
    + apply andb_prop in Ecd as [E1 E2]; apply Ascii.eqb_eq in E1, E2; subst c d.
      split; [eexists; reflexivity|].
      intros x [<-|Hx]; [exists EmptyString; eexists; reflexivity|].
      destruct (IHn (String.length r)) with (h := r) as [_ Hr];
        [simpl in Hle; lia | lia |].
      destruct (Hr x Hx) as (a & b & ->).
      exists (String "," (String " " a)), b. reflexivity.
    + destruct (IHn (String.length (String d r))) with (h := String d r) as [[b Hb] Hr];
        [simpl in *; lia | lia |].
      destruct (split_cs_nonempty (String d r)) as (y & ys & Ey).
      rewrite Ey in Hb, Hr |- *. simpl in Hb |- *.
      split; [exists b; now rewrite Hb at 1|].
      intros x [<-|Hx]; [exists EmptyString, b; now rewrite Hb at 1|].
      destruct (Hr x (or_intror Hx)) as (a & b' & Hab).
      exists (String c a), b'. rewrite Hab. reflexivity.
Qed.

Lemma take_until_app (sep : ascii) (u t : string) :
  contains (String sep EmptyString) u = false ->
  take_until sep (u ++ t) = u ++ take_until sep t.
Proof.
  induction u as [|c u IH]; intro H; [reflexivity|].
  simpl in H |- *. apply orb_false_elim in H as [H1 H2].
  rewrite andb_true_r, Ascii.eqb_sym in H1. now rewrite H1, (IH H2).
Qed.

Lemma rstrip_app (p : ascii -> bool) (u t : string) (b : ascii) :
  rstrip p t = EmptyString -> last_char u = Some b -> p b = false ->
  rstrip p (u ++ t) = u.
Proof.
  intros Ht. induction u as [|c u IH]; intros Hl Hb; [discriminate|].
  destruct u as [|c' u].
  - simpl in Hl |- *. injection Hl as ->. now rewrite Ht, Hb.
  - change (String c (String c' u) ++ t) with (String c (String c' u ++ t)).
    simpl in IH, Hl. simpl rstrip at 1. cbv zeta. rewrite IH by assumption. reflexivity.
Qed.

Lemma lstrip_keep (p : ascii -> bool) (u : string) (a : ascii) :
  first_char u = Some a -> p a = false -> lstrip p u = u.
Proof. destruct u as [|c u]; simpl; [discriminate|]. intros [= ->] H. now rewrite H. Qed.

Lemma filter_all_false {T} (f : T -> bool) (l : list T) :
  (forall x, In x l -> f x = false) -> filter f l = [].
Proof.
  induction l as [|x l IH]; intro H; [reflexivity|].
  simpl. rewrite (H x (or_introl eq_refl)). apply IH. intros y Hy. apply H. now right.
Qed.

(** A header whose first entry is [<v>; rel="next"] yields exactly [v]. *)
Lemma next_url_first_entry (v rest : string) :
  url_ok v = true -> (rest = EmptyString \/ exists r, rest = ", " ++ r) ->
  next_url (Some (mk_link v ++ rest)) = Some v.
Proof.
  intros Hok Hrest.
  unfold url_ok in Hok.
  destruct (first_char v) as [a|] eqn:Ea; [|discriminate].
  destruct (last_char v) as [b|] eqn:Eb; [|discriminate].
  apply andb_prop in Hok as [Hok Hsemi]. apply andb_prop in Hok as [Hok Hcs].
  apply andb_prop in Hok as [Ha Hb].
  apply negb_true_iff in Ha, Hb, Hcs, Hsemi. apply orb_false_elim in Ha as [Ha1 Ha2].
  apply orb_false_elim in Hb as [Hb1 Hb2].
  set (sfx := ">; " ++ rel_next).
  assert (Eh : mk_link v ++ rest = String "<" (v ++ (sfx ++ rest))).
  { unfold mk_link. simpl. now rewrite str_app_assoc. }
  assert (Hhd : hd EmptyString (split_cs (mk_link v ++ rest)) = mk_link v).
  { rewrite Eh.
    change (String "<" (v ++ (sfx ++ rest))) with (String "<" v ++ (sfx ++ rest)).
    rewrite (split_cs_hd_app (String "<" v)) by (simpl; exact Hcs || discriminate).
    rewrite (split_cs_hd_app sfx) by
      (try reflexivity; destruct Hrest as [->|[r ->]]; discriminate).
    assert (hd EmptyString (split_cs rest) = EmptyString) as ->.
    { destruct Hrest as [->|[r ->]]; reflexivity. }
    rewrite str_app_nil. reflexivity. }
  unfold next_url.
  assert (truthy (mk_link v ++ rest) = true) as -> by (rewrite Eh; reflexivity).
  destruct (split_cs_nonempty (mk_link v ++ rest)) as (x & xs & Ex).
  rewrite Ex in Hhd |- *. simpl in Hhd. subst x.
  cbn [filter].
  assert (contains rel_next (mk_link v) = true) as ->.
  { unfold mk_link. replace ("<" ++ v ++ ">; " ++ rel_next) with
      (("<" ++ v ++ ">; ") ++ rel_next ++ EmptyString)
      by now rewrite str_app_nil, !str_app_assoc.
    apply contains_self. }
  assert (Hbs : before_semi (mk_link v) = String "<" (v ++ ">")).
  { unfold before_semi, mk_link. simpl.
    rewrite take_until_app by exact Hsemi. reflexivity. }
  rewrite Hbs. unfold strip. simpl lstrip.
  destruct v as [|c v']; [discriminate|].
  simpl in Ea. injection Ea as <-.
  change (String c v' ++ ">") with (String c (v' ++ ">")). simpl lstrip.
  rewrite Ha1.
  change (String c (v' ++ ">")) with (String c v' ++ ">").
  rewrite (rstrip_app is_angle (String c v') ">" b) by (reflexivity || assumption).
  rewrite (lstrip_keep is_space (String c v') c) by (reflexivity || assumption).
  rewrite <- (str_app_nil (String c v')) at 1.
  rewrite (rstrip_app is_space (String c v') EmptyString b) by (reflexivity || assumption).
  reflexivity.
Qed.

Lemma cons_head_app (c : ascii) (l1 l2 : list string) :
  l1 <> [] -> cons_head c (l1 ++ l2)%list = (cons_head c l1 ++ l2)%list.
Proof. destruct l1; [contradiction | reflexivity]. Qed.

(** [split(", ")] cuts at a separator placed between two strings. *)
Lemma split_cs_app_sep (pre x : string) :
  split_cs (pre ++ ", " ++ x) = (split_cs pre ++ split_cs x)%list.
Proof.
  remember (String.length pre) as n eqn:Hn.
  assert (Hle : (String.length pre <= n)%nat) by lia. clear Hn.
  revert pre Hle; induction n as [n IHn] using lt_wf_ind; intros pre Hle.
  destruct pre as [|c [|d r]].
  - reflexivity.
  - change ((String c EmptyString ++ ", " ++ x)%string) with (String c (String "," (String " " x))).
    rewrite split_cs_step. rewrite andb_false_r.
    reflexivity.
  - change ((String c (String d r) ++ ", " ++ x)%string) with (String c (String d (r ++ ", " ++ x))).
    rewrite !split_cs_step.
    destruct (Ascii.eqb c "," && Ascii.eqb d " ").
    + rewrite (IHn (String.length r)) by (simpl in Hle; lia). reflexivity.
    + change (String d (r ++ ", " ++ x)) with ((String d r ++ ", " ++ x)%string).
      rewrite (IHn (String.length (String d r))) by (simpl in Hle |- *; lia).
      apply cons_head_app. destruct (split_cs_nonempty (String d r)) as (y & ys & ->). discriminate.
Qed.

(** A well-formed [rel="next"] entry yields exactly its URL, also when
    entries without that mark come before it. *)
Lemma next_url_links_to (l : option string) (v : string) :
  links_to l v -> next_url l = Some v.
Proof.
  intros [Hok (pre & rest & -> & Hpre & Hrest)].
  pose proof (next_url_first_entry v rest Hok Hrest) as Hv.
  destruct Hpre as [->|(p & -> & Hp)]; [exact Hv|].
  rewrite str_app_assoc. unfold next_url in Hv |- *.
  assert (truthy (p ++ ", " ++ mk_link v ++ rest) = true) as ->.
  { destruct p; reflexivity. }
  destruct (truthy (mk_link v ++ rest)); [|discriminate].
  rewrite split_cs_app_sep, filter_app.
  rewrite (filter_all_false _ (split_cs p)); [exact Hv|].
  intros y Hy. destruct (contains rel_next y) eqn:Ey; [|reflexivity].
  destruct (proj2 (split_cs_pieces p) y Hy) as (a & b & Eab).
  rewrite Eab in Hp. rewrite (contains_app_l _ a _ (contains_app_r _ _ b Ey)) in Hp.
  discriminate.
Qed.

(** A header without any [rel="next"] text ends the pagination. *)
Lemma next_url_no_next (l : option string) : no_next l -> next_url l = None.
Proof.
  intros [->|(h & -> & Hh)]; [reflexivity|].
  unfold next_url. destruct (truthy h); [|reflexivity].
  rewrite filter_all_false; [reflexivity|].
  intros x Hx. destruct (contains rel_next x) eqn:Ex; [|reflexivity].
  destruct (proj2 (split_cs_pieces h) x Hx) as (a & b & Eab).
  rewrite Eab in Hh. rewrite (contains_app_l _ a _ (contains_app_r _ _ b Ex)) in Hh.
  discriminate.
Qed.
End LinkFacts.

(** ** Facts about the [fetch_data] loop *)
Module FetchFacts.
Import PyStr Fetcher LinkFacts.
Open Scope Z_scope.
Open Scope list_scope.

Section Loop.
Variable A : Type.

Lemma url_ok_truthy (v : string) : url_ok v = true -> truthy v = true.
Proof. destruct v; [discriminate | reflexivity]. Qed.

Lemma linked_end_truthy (u : string) (ps : list (page A)) (v : string) :
  linked u ps v -> truthy u = true -> truthy v = true.
Proof.
  induction 1 as [|u p ps v w _ _ [Hw _] _ IH]; [easy|].
  intros _. apply IH, url_ok_truthy, Hw.
Qed.

Lemma loop_none (rs : list (response A)) (now : Z) (acc : list A) :
  fetch_loop rs None now acc = ([], Returned acc).
Proof. now destruct rs. Qed.

(** One iteration on a 200 response. *)
Lemma loop_ok (u : string) (r : response A) (rs : list (response A)) (now : Z) (acc : list A) :
  truthy u = true -> status r = 200 ->
  fetch_loop (r :: rs) (Some u) now acc =
    (EReq u now :: fst (fetch_loop rs (next_url (link r)) (now + latency r) (acc ++ body r)),
     snd (fetch_loop rs (next_url (link r)) (now + latency r) (acc ++ body r))).
Proof. intros Hu Hs. cbn [fetch_loop]. rewrite Hu, Hs. reflexivity. Qed.

(** One iteration on a quota-exhaustion response. *)
Lemma loop_quota (u : string) (q : response A) (rs : list (response A)) (now : Z)
    (acc : list A) (T : Z) :
  truthy u = true -> status q = 403 -> rl_remaining q = Some (HInt 0) ->
  rl_reset q = Some (HInt T) ->
  fetch_loop (q :: rs) (Some u) now acc =
    let s := T - (now + latency q) / 1000 + 1 in
    if s <? 0 then ([EReq u now; ESleep s], Raised ValueError)
    else (EReq u now :: ESleep s :: fst (fetch_loop rs (Some u) (now + latency q + 1000 * s) acc),
          snd (fetch_loop rs (Some u) (now + latency q + 1000 * s) acc)).
Proof.
  intros Hu Hs Hr HT. cbn [fetch_loop]. rewrite Hu, Hs, Hr, HT.
  cbn -[Z.mul Z.add Z.div Z.sub Z.ltb].
  destruct (T - (now + latency q) / 1000 + 1 <? 0); [reflexivity|].
  destruct (fetch_loop rs (Some u) _ acc). reflexivity.
Qed.

(** One page, served after its quota retries: either the loop reaches the
    page's successor state, or a retry's sleep raised. *)
Lemma page_run (p : page A) (rs : list (response A)) (now : Z) (acc : list A) :
  page_ok p -> truthy (pg_url p) = true ->
  (exists pre t,
      req_urls pre = page_reqs p /\
      fetch_loop (page_stream p ++ rs) (Some (pg_url p)) now acc =
        (pre ++ fst (fetch_loop rs (next_url (link (pg_ok p))) t (acc ++ body (pg_ok p))),
         snd (fetch_loop rs (next_url (link (pg_ok p))) t (acc ++ body (pg_ok p)))))
  \/ (snd (fetch_loop (page_stream p ++ rs) (Some (pg_url p)) now acc) = Raised ValueError /\
      exists d, d < 0 /\ In (ESleep d) (fst (fetch_loop (page_stream p ++ rs) (Some (pg_url p)) now acc))).
Proof.
  destruct p as [u qs ok]. unfold page_ok, page_stream, page_reqs; cbn [pg_url pg_retries pg_ok].
  intros [Hqs Hok] Hu. rewrite <- app_assoc. cbn [app]. revert now.
  induction Hqs as [|q qs [Hs [Hr [T HT]]] _ IH]; intro now.
  - left. exists [EReq u now], (now + latency ok). split; [reflexivity|].
    cbn [app]. now rewrite loop_ok.
  - cbn [app]. rewrite (loop_quota u q _ now acc T Hu Hs Hr HT). cbv zeta.
    set (s := T - (now + latency q) / 1000 + 1).
    destruct (Z.ltb_spec s 0) as [Hneg|Hnn].
    + right. split; [reflexivity|]. exists s. split; [exact Hneg | simpl; auto].
    + destruct (IH (now + latency q + 1000 * s))
        as [(pre & t & Hpre & E)|(Hraise & d & Hd & Hin)].
      * left. exists (EReq u now :: ESleep s :: pre), t.
        split; [cbn [req_urls]; rewrite Hpre; reflexivity|].
        rewrite E. reflexivity.
      * right. split; [exact Hraise|]. exists d. split; [exact Hd|]. simpl; auto.
Qed.

Lemma req_urls_app (t1 t2 : list event) : req_urls (t1 ++ t2) = req_urls t1 ++ req_urls t2.
Proof. induction t1 as [|[] t1 IH]; simpl; congruence. Qed.

(** A run through linked pages. *)
Lemma linked_run (seed : string) (ps : list (page A)) (v : string)
    (rs : list (response A)) (now : Z) (acc : list A) :
  linked seed ps v -> truthy seed = true ->
  (exists pre t,
      req_urls pre = flat_map page_reqs ps /\
      fetch_loop (stream ps ++ rs) (Some seed) now acc =
        (pre ++ fst (fetch_loop rs (Some v) t (acc ++ page_data ps)),
         snd (fetch_loop rs (Some v) t (acc ++ page_data ps))))
  \/ (snd (fetch_loop (stream ps ++ rs) (Some seed) now acc) = Raised ValueError /\
      exists d, d < 0 /\ In (ESleep d) (fst (fetch_loop (stream ps ++ rs) (Some seed) now acc))).
Proof.
  intros Hl. revert now acc.
  induction Hl as [u|u p ps v w Hu Hp Hw Hl IH]; intros now acc Hseed.
  - left. exists [], now. simpl. rewrite app_nil_r.
    split; [reflexivity|]. now destruct (fetch_loop rs (Some u) now acc).
  - subst u. unfold stream. simpl flat_map. rewrite <- app_assoc. fold (stream ps).
    destruct (page_run p (stream ps ++ rs) now acc Hp Hseed)
      as [(pre & t & Hpre & E)|Hbad]; [|right; exact Hbad].
    rewrite (next_url_links_to _ _ Hw) in E.
    destruct (IH t (acc ++ body (pg_ok p)) (url_ok_truthy _ (proj1 Hw)))
      as [(pre' & t' & Hpre' & E')|(Hraise & d & Hd & Hin)].
    + left. exists (pre ++ pre'), t'. split.
      * rewrite req_urls_app, Hpre, Hpre'. reflexivity.
      * rewrite E, E'. unfold page_data. simpl flat_map. fold (page_data ps).
        rewrite <- !app_assoc. reflexivity.
    + right. rewrite E. split; [exact Hraise|]. exists d. split; [exact Hd|].
      apply in_or_app. now right.
Qed.


(** Requests are never issued before the clock value the loop starts at. *)
Lemma req_times_mono (rs : list (response A)) :
  latencies_ok rs ->
  forall url now acc, Forall (fun tv => now <= tv) (req_times (fst (fetch_loop rs url now acc))).
Proof.
  induction 1 as [|r rs Hr Hl IH]; intros [u|] now acc; cbn [fetch_loop];
    try (destruct (truthy u)); cbn [negb fst req_times]; try constructor.
  - lia.
  - destruct (status r =? 200).
    + eapply Forall_impl; [|apply IH]. cbv beta. lia.
    + destruct (status r =? 403); [|constructor].
      destruct (rl_remaining r) as [[z|]|]; try constructor.
      destruct (z =? 0); [|constructor].
      destruct (rl_reset r) as [[T|]|]; try constructor.
      destruct (Z.ltb_spec (T - (now + latency r) / 1000 + 1) 0) as [Hneg|Hnn];
        [constructor|].
      specialize (IH (Some u) (now + latency r + 1000 * (T - (now + latency r) / 1000 + 1)) acc).
      destruct (fetch_loop rs (Some u) _ acc) as [tr o]. cbn [fst req_times] in *.
      eapply Forall_impl; [|exact IH]. cbv beta. lia.
Qed.

(** One iteration on a terminal failure. *)
Lemma loop_fail (u : string) (f : response A) (rs : list (response A)) (now : Z) (acc : list A) :
  truthy u = true -> status f <> 200 ->
  ~ (status f = 403 /\ rl_remaining f = Some (HInt 0)) ->
  (status f = 403 -> rl_remaining f <> Some HBad) ->
  fetch_loop (f :: rs) (Some u) now acc = ([EReq u now], Returned acc).
Proof.
  intros Hu H200 Hq Hbad. cbn [fetch_loop]. rewrite Hu. cbn [negb].
  apply Z.eqb_neq in H200 as E200. rewrite E200.
  destruct (Z.eqb_spec (status f) 403) as [E403|N403]; [|reflexivity].
  destruct (rl_remaining f) as [[z|]|] eqn:Er.
  - destruct (Z.eqb_spec z 0) as [->|]; [|reflexivity].
    exfalso. apply Hq. split; [assumption|reflexivity].
  - exfalso. now apply (Hbad E403).
  - reflexivity.
Qed.
End Loop.
End FetchFacts.

(** ** Claims about [fetch_data] *)
Module FetcherSpec.
Import PyStr Fetcher LinkFacts FetchFacts Fixtures.
Open Scope Z_scope.
Open Scope list_scope.

Lemma stream_last {A} (ps : list (page A)) (last : page A) (rs : list (response A)) :
  stream (ps ++ [last]) ++ rs = stream ps ++ (page_stream last ++ rs).
Proof. unfold stream. rewrite flat_map_app. simpl. now rewrite app_nil_r, app_assoc. Qed.

Lemma page_data_last {A} (ps : list (page A)) (last : page A) :
  page_data (ps ++ [last]) = page_data ps ++ body (pg_ok last).
Proof. unfold page_data. rewrite flat_map_app. simpl. now rewrite app_nil_r. Qed.

Lemma page_reqs_last {A} (ps : list (page A)) (last : page A) :
  flat_map page_reqs (ps ++ [last]) = flat_map page_reqs ps ++ page_reqs last.
Proof. rewrite flat_map_app. simpl. now rewrite app_nil_r. Qed.

Lemma sleeps_ok_in (tr : list event) (d : Z) :
  sleeps_ok tr = true -> In (ESleep d) tr -> 0 <= d.
Proof.
  unfold sleeps_ok. rewrite forallb_forall. intros H Hin.
  specialize (H _ Hin). cbv beta in H. now apply Z.leb_le.
Qed.

(** A run over a chain of linked 200 pages: either it returns the pages'
    arrays, or a retry's sleep raised. *)
Lemma pages_run {A} (seed : string) (ps : list (page A)) (last : page A)
    (rs : list (response A)) (now : Z) :
  truthy seed = true -> linked seed ps (pg_url last) -> page_ok last ->
  no_next (link (pg_ok last)) ->
  (snd (fetch_data (stream (ps ++ [last]) ++ rs) seed now) = Returned (page_data (ps ++ [last])) /\
   req_urls (fst (fetch_data (stream (ps ++ [last]) ++ rs) seed now)) = flat_map page_reqs (ps ++ [last]))
  \/ (exists d, d < 0 /\ In (ESleep d) (fst (fetch_data (stream (ps ++ [last]) ++ rs) seed now))).
Proof.
  intros Hseed Hl Hlast Hnext.
  unfold fetch_data. rewrite stream_last, page_data_last, page_reqs_last.
  destruct (linked_run A seed ps (pg_url last) (page_stream last ++ rs) now [] Hl Hseed)
    as [(pre & t & Hpre & E)|(_ & Hbad)]; [|right; exact Hbad].
  rewrite E. simpl app.
  destruct (page_run A last rs t (page_data ps) Hlast (linked_end_truthy A _ _ _ Hl Hseed))
    as [(pre' & t' & Hpre' & E')|(_ & d & Hd & Hin)].
  - rewrite E', (next_url_no_next _ Hnext), loop_none. left. simpl.
    rewrite app_nil_r. split; [reflexivity|].
    now rewrite req_urls_app, Hpre, Hpre'.
  - right. exists d. split; [exact Hd|].
    apply in_or_app. now right.
Qed.

(** C2 (as stated): over a chain of 200 pages, with any quota retries in
    between, [fetch_data] returns the concatenation of the pages' arrays.
    Fails: a retry whose reset time lies more than a second in the past
    computes a negative sleep, and [time.sleep] raises [ValueError] instead
    of waiting and retrying. *)
Lemma fetch_data_pages_cex :
  ~ (forall (seed : string) (ps : list (page nat)) (last : page nat)
            (rs : list (response nat)) (now : Z),
        truthy seed = true -> linked seed ps (pg_url last) -> page_ok last ->
        no_next (link (pg_ok last)) ->
        snd (fetch_data (stream (ps ++ [last]) ++ rs) seed now) = Returned (page_data (ps ++ [last]))).
Proof.
  intro H.
  specialize (H "u" [] (mkPage "u" [q_stale] ok2) [] 10000).
  assert (Hq : quota_resp q_stale) by (split; [reflexivity | split; [reflexivity | eexists; reflexivity]]).
  specialize (H eq_refl (linked_nil "u") (conj (Forall_cons _ Hq (Forall_nil _)) eq_refl)
                (or_introl eq_refl)).
  vm_compute in H. discriminate H.
Qed.

(** C2: over a chain of 200 pages linked by [rel="next"] entries, with
    quota-exhaustion retries before any page, [fetch_data] returns exactly
    the concatenation of the pages' arrays in page order, having requested
    each page's URL once per retry and once more, on every run in which no
    [time.sleep] is handed a negative duration (the defect exhibited by
    [fetch_data_pages_cex]). *)
Theorem fetch_data_pages {A} (seed : string) (ps : list (page A)) (last : page A)
    (rs : list (response A)) (now : Z) :
  truthy seed = true -> linked seed ps (pg_url last) -> page_ok last ->
  no_next (link (pg_ok last)) ->
  sleeps_ok (fst (fetch_data (stream (ps ++ [last]) ++ rs) seed now)) = true ->
  snd (fetch_data (stream (ps ++ [last]) ++ rs) seed now) = Returned (page_data (ps ++ [last])) /\
  req_urls (fst (fetch_data (stream (ps ++ [last]) ++ rs) seed now)) = flat_map page_reqs (ps ++ [last]).
Proof.
  intros Hseed Hl Hlast Hnext Hs.
  destruct (pages_run seed ps last rs now Hseed Hl Hlast Hnext) as [H|(d & Hd & Hin)];
    [exact H|].
  pose proof (sleeps_ok_in _ d Hs Hin). lia.
Qed.

(** Two pages: the first lists [rel="prev"] before [rel="next"], the second
    is served after a quota retry. *)
Lemma fetch_data_pages_witness :
  snd (fetch_data (stream ([p1_prev] ++ [p2]) ++ []) "u" 10000) = Returned (page_data ([p1_prev] ++ [p2])) /\
  req_urls (fst (fetch_data (stream ([p1_prev] ++ [p2]) ++ []) "u" 10000)) =
    flat_map page_reqs ([p1_prev] ++ [p2]).
Proof.
  apply (fetch_data_pages "u" [p1_prev] p2 [] 10000).
  - reflexivity.
  - apply (linked_cons "u" p1_prev [] "v" "v"); [reflexivity | | | apply linked_nil].
    + split; [constructor | reflexivity].
    + split; [reflexivity|].
      exists ("<p>; rel=" ++ dq ++ "prev" ++ dq ++ ", ")%string, EmptyString.
      split; [reflexivity|]. split; [|left; reflexivity].
      right. exists ("<p>; rel=" ++ dq ++ "prev" ++ dq)%string.
      split; [reflexivity | vm_compute; reflexivity].
  - split; [|reflexivity]. constructor; [|constructor].
    split; [reflexivity|]. split; [reflexivity|]. eexists; reflexivity.
  - left. reflexivity.
  - vm_compute. reflexivity.
Defined.

(** C4 (as stated): after a quota-exhaustion 403 the fetch neither advances
    nor terminates: it goes on with the same URL and records at a time no
    earlier than [T+1] seconds.  Fails: with a reset time more than a second
    in the past, [time.sleep] raises [ValueError] and the fetch ends. *)
Lemma quota_retry_cex :
  ~ (forall (u : string) (q : response nat) (rs : list (response nat)) (now : Z)
            (acc : list nat) (T : Z),
        truthy u = true -> status q = 403 -> rl_remaining q = Some (HInt 0) ->
        rl_reset q = Some (HInt T) ->
        exists t', 1000 * (T + 1) <= t' /\
          fetch_loop (q :: rs) (Some u) now acc =
            (EReq u now :: ESleep (T - (now + latency q) / 1000 + 1) ::
               fst (fetch_loop rs (Some u) t' acc),
             snd (fetch_loop rs (Some u) t' acc))).
Proof.
  intro H.
  destruct (H "u" q_stale [ok2] 10000 [] 0 eq_refl eq_refl eq_refl eq_refl)
    as (t' & _ & E).
  apply (f_equal snd) in E. vm_compute in E. discriminate E.
Qed.

(** C4: on a quota-exhaustion 403 with [X-RateLimit-Reset: T] handled at
    clock [t], whose computed sleep [T - int(t) + 1] is not negative, the
    loop sleeps that long and resumes at a clock [t' >= 1000 * (T + 1)] ms
    with the same URL and the same accumulated list, and every later request
    is issued at or after [T + 1] s. *)
Theorem quota_retry_same_url {A} (u : string) (q : response A) (rs : list (response A))
    (now : Z) (acc : list A) (T : Z) :
  truthy u = true -> status q = 403 -> rl_remaining q = Some (HInt 0) ->
  rl_reset q = Some (HInt T) -> latencies_ok rs ->
  0 <= T - (now + latency q) / 1000 + 1 ->
  exists t', 1000 * (T + 1) <= t' /\
    fetch_loop (q :: rs) (Some u) now acc =
      (EReq u now :: ESleep (T - (now + latency q) / 1000 + 1) ::
         fst (fetch_loop rs (Some u) t' acc),
       snd (fetch_loop rs (Some u) t' acc)) /\
    Forall (fun tv => 1000 * (T + 1) <= tv) (req_times (fst (fetch_loop rs (Some u) t' acc))).
Proof.
  intros Hu Hs Hr HT Hl Hnn.
  rewrite (loop_quota A u q rs now acc T Hu Hs Hr HT). cbv zeta.
  set (t := now + latency q) in *.
  destruct (Z.ltb_spec (T - t / 1000 + 1) 0) as [Hneg|_]; [lia|].
  assert (Ht' : 1000 * (T + 1) <= t + 1000 * (T - t / 1000 + 1)).
  { pose proof (Z.mod_pos_bound t 1000 ltac:(lia)).
    pose proof (Z.div_mod t 1000 ltac:(lia)). lia. }
  exists (t + 1000 * (T - t / 1000 + 1)). split; [exact Ht'|]. split; [reflexivity|].
  eapply Forall_impl; [|apply (req_times_mono A rs Hl)]. cbv beta. lia.
Qed.

Lemma quota_retry_same_url_witness :
  exists t', 1000 * (20 + 1) <= t' /\
    fetch_loop (q_fresh :: [ok2]) (Some "v") 10000 [] =
      (EReq "v" 10000 :: ESleep (20 - (10000 + latency q_fresh) / 1000 + 1) ::
         fst (fetch_loop [ok2] (Some "v") t' []),
       snd (fetch_loop [ok2] (Some "v") t' [])) /\
    Forall (fun tv => 1000 * (20 + 1) <= tv) (req_times (fst (fetch_loop [ok2] (Some "v") t' []))).
Proof.
  apply (quota_retry_same_url "v" q_fresh [ok2] 10000 [] 20); try reflexivity.
  - constructor; [vm_compute; discriminate | constructor].
  - vm_compute. discriminate.
Defined.

(** C8 (as stated): the sleep duration is clamped to a sane floor before
    [time.sleep] is called.  Refuted: a stale reset time yields a negative
    duration that is passed to [time.sleep] unchanged. *)
Lemma sleep_clamped_cex :
  ~ (forall (rs : list (response nat)) (u : string) (now d : Z),
        In (ESleep d) (fst (fetch_data rs u now)) -> 0 <= d).
Proof.
  intro H. specialize (H [q_stale] "u" 10000 (-9)).
  assert (0 <= -9) by (apply H; vm_compute; auto). lia.
Qed.

(** C8 (amended): on a quota-exhaustion 403 with [X-RateLimit-Reset: T]
    the loop passes [T - int(time.time()) + 1] to [time.sleep] as it is,
    whatever [T] is: there is no lower or upper bound on the duration. *)
Theorem quota_sleep_unclamped {A} (u : string) (q : response A) (rs : list (response A))
    (now : Z) (acc : list A) (T : Z) :
  truthy u = true -> status q = 403 -> rl_remaining q = Some (HInt 0) ->
  rl_reset q = Some (HInt T) ->
  exists tr,
    fst (fetch_loop (q :: rs) (Some u) now acc) =
      EReq u now :: ESleep (T - (now + latency q) / 1000 + 1) :: tr.
Proof.
  intros Hu Hs Hr HT.
  rewrite (loop_quota A u q rs now acc T Hu Hs Hr HT). cbv zeta.
  destruct (T - (now + latency q) / 1000 + 1 <? 0); eexists; reflexivity.
Qed.

(** A reset time in the year 2100 makes the loop sleep for more than a
    century. *)
Lemma quota_sleep_unclamped_witness :
  exists tr,
    fst (fetch_loop [q_far] (Some "u") 10000 []) =
      EReq "u" 10000 :: ESleep (4102444800 - (10000 + latency q_far) / 1000 + 1) :: tr.
Proof. apply (quota_sleep_unclamped "u" q_far [] 10000 [] 4102444800); reflexivity. Defined.

(** C6 (as stated): after K linked 200 pages, a non-200 response that is
    not a zero-quota 403 makes [fetch_data] return the records of those K
    pages.  Refuted: a 403 whose [X-RateLimit-Remaining] is not an integer
    makes [int(...)] raise [ValueError]. *)
Lemma fetch_data_partial_cex :
  ~ (forall (seed : string) (ps : list (page nat)) (uf : string) (f : response nat)
            (rs : list (response nat)) (now : Z),
        truthy seed = true -> linked seed ps uf -> status f <> 200 ->
        ~ (status f = 403 /\ rl_remaining f = Some (HInt 0)) ->
        snd (fetch_data (stream ps ++ f :: rs) seed now) = Returned (page_data ps)).
Proof.
  intro H.
  assert (Hl : linked "u" [p1] "v").
  { apply (linked_cons "u" p1 [] "v" "v"); [reflexivity | | | apply linked_nil].
    - split; [constructor | reflexivity].
    - split; [reflexivity|]. exists EmptyString, EmptyString.
      split; [reflexivity | split; left; reflexivity]. }
  specialize (H "u" [p1] "v" bad_remaining [] 10000 eq_refl Hl ltac:(discriminate)
                ltac:(intros [_ E]; discriminate E)).
  vm_compute in H. discriminate H.
Qed.

(** C6 (amended): the run reaches, after K linked 200 pages (no
    [time.sleep] on the way raised), a response that is neither a 200 nor a
    zero-quota 403, and whose [X-RateLimit-Remaining] parses as an integer
    when it is a 403.  Then [fetch_data] ends at once: it returns exactly
    the K pages' records, and the failing URL is the last one requested. *)
Theorem fetch_data_partial {A} (seed : string) (ps : list (page A)) (uf : string)
    (f : response A) (rs : list (response A)) (now : Z) :
  truthy seed = true -> linked seed ps uf -> status f <> 200 ->
  ~ (status f = 403 /\ rl_remaining f = Some (HInt 0)) ->
  (status f = 403 -> rl_remaining f <> Some HBad) ->
  sleeps_ok (fst (fetch_data (stream ps ++ f :: rs) seed now)) = true ->
  snd (fetch_data (stream ps ++ f :: rs) seed now) = Returned (page_data ps) /\
  req_urls (fst (fetch_data (stream ps ++ f :: rs) seed now)) = flat_map page_reqs ps ++ [uf].
Proof.
  intros Hseed Hl H200 Hq Hbad Hs. unfold fetch_data in *.
  destruct (linked_run A seed ps uf (f :: rs) now [] Hl Hseed)
    as [(pre & t & Hpre & E)|(_ & d & Hd & Hin)].
  - rewrite E, (loop_fail A uf f rs t _ (linked_end_truthy A _ _ _ Hl Hseed) H200 Hq Hbad).
    simpl. split; [reflexivity|]. now rewrite req_urls_app, Hpre.
  - pose proof (sleeps_ok_in _ d Hs Hin). lia.
Qed.

Lemma fetch_data_partial_witness :
  snd (fetch_data (stream [p1] ++ server_error :: []) "u" 10000) = Returned (page_data [p1]) /\
  req_urls (fst (fetch_data (stream [p1] ++ server_error :: []) "u" 10000)) =
    flat_map page_reqs [p1] ++ ["v"].
Proof.
  apply (fetch_data_partial "u" [p1] "v" server_error [] 10000).
  - reflexivity.
  - apply (linked_cons "u" p1 [] "v" "v"); [reflexivity | | | apply linked_nil].
    + split; [constructor | reflexivity].
    + split; [reflexivity|]. exists EmptyString, EmptyString.
      split; [reflexivity | split; left; reflexivity].
  - vm_compute. discriminate.
  - vm_compute. intros [E _]. discriminate E.
  - vm_compute. discriminate.
  - vm_compute. reflexivity.
Defined.

End FetcherSpec.

(** ** Facts about the aggregation *)
Module AggFacts.
Import PyStr Aggregator.
Open Scope Z_scope.
Open Scope list_scope.

Lemma str_compare_ot (a b : string) : String_as_OT.compare a b = String.compare a b.
Proof.
  revert b; induction a as [|x a IH]; intros [|y b]; reflexivity.
Qed.

Lemma str_leb_iff (a b : string) : (a <=? b)%string = true <-> a = b \/ String_as_OT.lt a b.
Proof.
  unfold String.leb, String_as_OT.lt. rewrite <- str_compare_ot.
  destruct (String_as_OT.compare_spec a b) as [E|L|G].
  - split; auto.
  - split; auto.
  - split; [discriminate|]. intros [->|H]; [|discriminate].
    exfalso. apply (StrictOrder_Irreflexive (R := String_as_OT.lt) b G).
Qed.

Lemma str_leb_refl (a : string) : (a <=? a)%string = true.
Proof. apply str_leb_iff. now left. Qed.

Lemma str_leb_trans (a b c : string) :
  (a <=? b)%string = true -> (b <=? c)%string = true -> (a <=? c)%string = true.
Proof.
  rewrite !str_leb_iff. intros [->|H1] [->|H2]; auto.
  right. eapply (StrictOrder_Transitive (R := String_as_OT.lt)); eassumption.
Qed.

Lemma str_ltb_leb (a b : string) : (a <? b)%string = true -> (a <=? b)%string = true.
Proof. unfold String.ltb, String.leb. now destruct (String.compare a b). Qed.

Lemma str_not_ltb_leb (a b : string) : (a <? b)%string = false -> (b <=? a)%string = true.
Proof.
  unfold String.ltb, String.leb. rewrite String.compare_antisym.
  now destruct (String.compare b a).
Qed.

Lemma sql_max_go (l : list (option string)) (acc : option string) :
  (fold_left max_step l acc = None <-> acc = None /\ forall x, In x l -> x = None) /\
  (forall m, fold_left max_step l acc = Some m ->
     (acc = Some m \/ In (Some m) l) /\
     (forall v, acc = Some v \/ In (Some v) l -> (v <=? m)%string = true)).
Proof.
  revert acc; induction l as [|x l IH]; intro acc; simpl.
  - split; [split; [intros H; split; [exact H | intros _ []] | tauto]|].
    intros m ->. split; [auto|]. intros v [[= ->]|[]]. apply str_leb_refl.
  - destruct (IH (max_step acc x)) as [IH1 IH2]. split.
    + rewrite IH1. destruct x as [v|], acc as [w|]; simpl.
      * split; [intros [H _]; destruct (w <? v)%string; discriminate|].
        intros [H _]; discriminate.
      * split; [intros [H _]; discriminate|]. intros [_ H]. discriminate (H _ (or_introl eq_refl)).
      * split; [intros [H _]; discriminate|]. intros [H _]; discriminate.
      * split; [intros [_ H]; split; [reflexivity|]; intros y [<-|Hy]; auto|].
        intros [_ H]. split; [reflexivity|]. intros y Hy. apply H. now right.
    + intros m Hm. destruct (IH2 m Hm) as [Hin Hle]. split.
      * destruct Hin as [Hacc|Hin]; [|right; right; exact Hin].
        destruct x as [v|], acc as [w|]; simpl in Hacc.
        -- destruct (w <? v)%string; injection Hacc as ->; [right; left | left]; reflexivity.
        -- injection Hacc as ->. right. left. reflexivity.
        -- left. exact Hacc.
        -- discriminate.
      * intros v Hv.
        assert (Hstep : forall y, acc = Some y \/ x = Some y ->
                          exists z, max_step acc x = Some z /\ (y <=? z)%string = true).
        { intros y Hy. destruct x as [u|], acc as [w|]; simpl.
          - destruct (w <? u)%string eqn:E; eexists; split; try reflexivity.
            + destruct Hy as [[= ->]|[= ->]]; [apply str_ltb_leb, E | apply str_leb_refl].
            + destruct Hy as [[= ->]|[= ->]]; [apply str_leb_refl | apply str_not_ltb_leb, E].
          - destruct Hy as [H|[= ->]]; [discriminate|]. eexists; split; [reflexivity | apply str_leb_refl].
          - destruct Hy as [[= ->]|H]; [|discriminate]. eexists; split; [reflexivity | apply str_leb_refl].
          - destruct Hy as [H|H]; discriminate. }
        destruct Hv as [Hv|[Hv|Hv]].
        -- destruct (Hstep v (or_introl Hv)) as (z & Hz & Hvz).
           eapply str_leb_trans; [exact Hvz | apply Hle; now left].
        -- destruct (Hstep v (or_intror Hv)) as (z & Hz & Hvz).
           eapply str_leb_trans; [exact Hvz | apply Hle; now left].
        -- apply Hle. now right.
Qed.

(** [MAX] is null exactly when every value is null, and otherwise is one of
    the present values and no smaller than any of them. *)
Lemma sql_max_spec (l : list (option string)) :
  (sql_max l = None <-> forall x, In x l -> x = None) /\
  (forall m, sql_max l = Some m ->
     In (Some m) l /\ forall v, In (Some v) l -> (v <=? m)%string = true).
Proof.
  unfold sql_max. destruct (sql_max_go l None) as [H1 H2]. split.
  - rewrite H1. tauto.
  - intros m Hm. destruct (H2 m Hm) as [[H|H] Hle]; [discriminate|].
    split; [exact H|]. intros v Hv. apply Hle. now right.
Qed.

(** [SUM(CASE WHEN merged_at IS NOT NULL THEN 1 ELSE 0 END)] counts the
    merged records. *)
Lemma sum_merged (g : list pull_request) :
  fold_right Z.add 0 (map (fun p => if merged_at p then 1 else 0) g) =
  Z.of_nat (List.length (filter (fun p => match merged_at p with Some _ => true | None => false end) g)).
Proof.
  induction g as [|p g IH]; [reflexivity|]. cbn [map fold_right filter].
  destruct (merged_at p); cbn [List.length]; rewrite IH; lia.
Qed.

Lemma pr_aggregated_ids (prs : list pull_request) :
  map a_repository_id (pr_aggregated prs) = nodup key_eq_dec (map head_repo_id prs).
Proof. unfold pr_aggregated. rewrite map_map. simpl. apply map_id. Qed.

Lemma in_pr_aggregated (prs : list pull_request) (a : agg_row) :
  In a (pr_aggregated prs) <->
  exists k, a = aggregate_group prs k /\ In k (nodup key_eq_dec (map head_repo_id prs)).
Proof.
  unfold pr_aggregated. rewrite in_map_iff.
  split; intros (k & E & H); exists k; split; auto.
Qed.

Lemma key_eqb_refl (k : option Z) : key_eqb k k = true.
Proof. unfold key_eqb. now destruct (key_eq_dec k k). Qed.

Lemma in_join (aggs : list agg_row) (repos : list repo_row) (j : joined_row) :
  In j (join aggs repos) <->
  exists a r, In a aggs /\ In r repos /\
    a_repository_id a = Some (j_repository_id j) /\ repository_id r = Some (j_repository_id j) /\
    j = mkJoinedRow (j_repository_id j) (num_prs a) (num_prs_merged a) (a_merged_at a)
          (organization_name r) (repository_name r) (repository_owner r).
Proof.
  unfold join. rewrite in_flat_map. split.
  - intros (a & Ha & Hj). rewrite in_flat_map in Hj. destruct Hj as (r & Hr & Hj).
    destruct (a_repository_id a) as [x|] eqn:Ex, (repository_id r) as [y|] eqn:Ey;
      try contradiction.
    destruct (Z.eqb_spec x y) as [<-|]; [|contradiction].
    destruct Hj as [<-|[]]. exists a, r. simpl. repeat split; assumption.
  - intros (a & r & Ha & Hr & Ea & Er & ->). exists a. split; [exact Ha|].
    apply in_flat_map. exists r. split; [exact Hr|]. rewrite Ea, Er, Z.eqb_refl. now left.
Qed.

Lemma flat_map_filter_nil {T U} (f : T -> list U) (p : T -> bool) (l : list T) :
  (forall x, p x = false -> f x = []) -> flat_map f l = flat_map f (filter p l).
Proof.
  intros Hf. induction l as [|x l IH]; [reflexivity|]. cbn [flat_map filter].
  destruct (p x) eqn:E; cbn [flat_map]; rewrite IH; [reflexivity|]. now rewrite Hf.
Qed.

(** Aggregate rows with a null key never join. *)
Lemma join_drops_null (aggs : list agg_row) (repos : list repo_row) :
  join aggs repos = join (filter (fun a => if a_repository_id a then true else false) aggs) repos.
Proof.
  unfold join. apply flat_map_filter_nil. intros a Ha.
  destruct (a_repository_id a) eqn:Ea; [discriminate|].
  induction repos as [|r repos IHr]; [reflexivity|]. simpl. exact IHr.
Qed.

Lemma filter_map_comm {T U} (f : U -> bool) (g : T -> U) (l : list T) :
  filter f (map g l) = map g (filter (fun x => f (g x)) l).
Proof. induction l as [|x l IH]; simpl; [reflexivity|]. destruct (f (g x)); simpl; congruence. Qed.

Lemma length_filter_le {T} (f : T -> bool) (l : list T) :
  (List.length (filter f l) <= List.length l)%nat.
Proof. induction l as [|x l IH]; simpl; [lia|]. destruct (f x); simpl; lia. Qed.

Lemma is_compliant_of_iff (j : joined_row) :
  is_compliant_of j = true <->
  j_num_prs j = j_num_prs_merged j /\
  (exists o, j_repository_owner j = Some o /\ contains "scytale" (lower o) = true).
Proof.
  unfold is_compliant_of.
  destruct (Z.eqb_spec (j_num_prs j) (j_num_prs_merged j)) as [E|E];
    destruct (j_repository_owner j) as [o|]; simpl.
  - destruct (contains "scytale" (lower o)) eqn:C; simpl.
    + split; [intros _; split; [exact E | exists o; split; [reflexivity | exact C]] | reflexivity].
    + split; [discriminate|]. intros [_ (o' & [= <-] & C')]. congruence.
  - split; [discriminate|]. intros [_ (o' & H & _)]. discriminate H.
  - split; [discriminate|]. intros [H _]. contradiction.
  - split; [discriminate|]. intros [H _]. contradiction.
Qed.

Lemma final_df_ok (repos : list raw_repository) (prs : list pull_request)
    (rows : list compliance_record) :
  final_df repos prs = SOk rows ->
  rows = map final_of (join (pr_aggregated prs) (map repo_filtered repos)).
Proof.
  unfold final_df.
  destruct (schema_has_repo_columns repos && schema_has_merged_at prs && schema_has_head_repo_id prs);
    [|discriminate].
  now intros [= <-].
Qed.

Lemma retag_head_repo_id (f : pull_request -> string) (p : pull_request) :
  head_repo_id (mkPullRequest (pr_head p) (merged_at p) (f p)) = head_repo_id p.
Proof. reflexivity. Qed.
End AggFacts.

(** ** The aggregation job *)
Module AggSpec.
Import PyStr Aggregator Fixtures AggFacts.
Open Scope Z_scope.
Open Scope list_scope.

(** Claim C1: in every row of [final_df], [is_compliant] is true exactly
    when [num_prs = num_prs_merged] and the owner is present and, lower-cased,
    contains "scytale"; an absent owner gives false. *)
Theorem is_compliant_iff (repos : list raw_repository) (prs : list pull_request)
    (rows : list compliance_record) (row : compliance_record) :
  final_df repos prs = SOk rows -> In row rows ->
  (c_is_compliant row = true <->
   c_num_prs row = c_num_prs_merged row /\
   (exists o, c_repository_owner row = Some o /\ contains "scytale" (lower o) = true)).
Proof.
  intros Hf Hin. apply final_df_ok in Hf. subst rows.
  apply in_map_iff in Hin. destruct Hin as (j & <- & _).
  apply is_compliant_of_iff.
Qed.

Lemma is_compliant_iff_witness :
  final_df [repo_a] [pr_on 1 (Some "2024-01-01"); pr_on 1 None] =
    SOk [final_of (mkJoinedRow 1 2 1 (Some "2024-01-01") (Some "scytale") (Some "repoA") (Some "scytale"))] /\
  (c_is_compliant (final_of (mkJoinedRow 1 2 1 (Some "2024-01-01") (Some "scytale") (Some "repoA") (Some "scytale"))) = true <->
   c_num_prs (final_of (mkJoinedRow 1 2 1 (Some "2024-01-01") (Some "scytale") (Some "repoA") (Some "scytale"))) =
   c_num_prs_merged (final_of (mkJoinedRow 1 2 1 (Some "2024-01-01") (Some "scytale") (Some "repoA") (Some "scytale"))) /\
   (exists o, c_repository_owner (final_of (mkJoinedRow 1 2 1 (Some "2024-01-01") (Some "scytale") (Some "repoA") (Some "scytale"))) = Some o /\
      contains "scytale" (lower o) = true)).
Proof.
  split; [vm_compute; reflexivity|].
  apply (is_compliant_iff [repo_a] [pr_on 1 (Some "2024-01-01"); pr_on 1 None]
           [final_of (mkJoinedRow 1 2 1 (Some "2024-01-01") (Some "scytale") (Some "repoA") (Some "scytale"))]).
  - vm_compute. reflexivity.
  - left. reflexivity.
Defined.

(** Claim C3: the join is inner on [repository_id]: [final_df] has a row
    for [k] exactly when [k] is a (non-null) key of the pull-request
    aggregates and the id of some repository. *)
Theorem join_inner (repos : list raw_repository) (prs : list pull_request)
    (rows : list compliance_record) (k : Z) :
  final_df repos prs = SOk rows ->
  ((exists row, In row rows /\ c_repository_id row = k) <->
   In (Some k) (map a_repository_id (pr_aggregated prs)) /\
   In (Some k) (map repository_id (map repo_filtered repos))).
Proof.
  intros Hf. apply final_df_ok in Hf. subst rows. split.
  - intros (row & Hin & Hk). apply in_map_iff in Hin. destruct Hin as (j & <- & Hj).
    apply in_join in Hj. destruct Hj as (a & r & Ha & Hr & Ea & Er & _).
    simpl in Hk. subst k. split.
    + apply in_map_iff. exists a. split; [exact Ea | exact Ha].
    + apply in_map_iff. exists r. split; [exact Er | exact Hr].
  - intros [Ha Hr]. apply in_map_iff in Ha, Hr.
    destruct Ha as (a & Ea & Ha), Hr as (r & Er & Hr).
    set (j := mkJoinedRow k (num_prs a) (num_prs_merged a) (a_merged_at a)
                (organization_name r) (repository_name r) (repository_owner r)).
    exists (final_of j). split; [|reflexivity].
    apply in_map. apply in_join. exists a, r. simpl. repeat split; assumption.
Qed.

Lemma join_inner_witness :
  final_df [repo_a; mkRawRepository (Some "scytale/empty") (Some 2) (Some "empty") (Some "scytale")]
           [pr_on 1 None; pr_on 3 None] =
    SOk [final_of (mkJoinedRow 1 1 0 None (Some "scytale") (Some "repoA") (Some "scytale"))] /\
  ((exists row, In row [final_of (mkJoinedRow 1 1 0 None (Some "scytale") (Some "repoA") (Some "scytale"))] /\
      c_repository_id row = 2) <->
   In (Some 2) (map a_repository_id (pr_aggregated [pr_on 1 None; pr_on 3 None])) /\
   In (Some 2) (map repository_id (map repo_filtered
      [repo_a; mkRawRepository (Some "scytale/empty") (Some 2) (Some "empty") (Some "scytale")]))).
Proof.
  split; [vm_compute; reflexivity|].
  apply (join_inner [repo_a; mkRawRepository (Some "scytale/empty") (Some 2) (Some "empty") (Some "scytale")]
           [pr_on 1 None; pr_on 3 None]
           [final_of (mkJoinedRow 1 1 0 None (Some "scytale") (Some "repoA") (Some "scytale"))] 2).
  vm_compute. reflexivity.
Defined.

(** Claim C5: [pr_aggregated] has one row per distinct [head.repo.id]
    (null included); in the row of key [k], [num_prs] counts the records of
    key [k], [num_prs_merged] those among them with a [merged_at], and
    [merged_at] is null when all of theirs are null and otherwise the
    greatest present value; the [repository] tag plays no part. *)
Theorem pr_aggregated_groups (prs : list pull_request) :
  NoDup (map a_repository_id (pr_aggregated prs)) /\
  (forall k, In k (map a_repository_id (pr_aggregated prs)) <-> In k (map head_repo_id prs)) /\
  (forall a, In a (pr_aggregated prs) ->
     num_prs a = Z.of_nat (List.length (group_of prs (a_repository_id a))) /\
     num_prs_merged a =
       Z.of_nat (List.length (filter (fun p => if merged_at p then true else false)
                                     (group_of prs (a_repository_id a)))) /\
     (a_merged_at a = None <->
        forall p, In p (group_of prs (a_repository_id a)) -> merged_at p = None) /\
     (forall m, a_merged_at a = Some m ->
        (exists p, In p (group_of prs (a_repository_id a)) /\ merged_at p = Some m) /\
        (forall p v, In p (group_of prs (a_repository_id a)) -> merged_at p = Some v ->
           (v <=? m)%string = true))) /\
  (forall tag : pull_request -> string,
     pr_aggregated (map (fun p => mkPullRequest (pr_head p) (merged_at p) (tag p)) prs) =
     pr_aggregated prs).
Proof.
  split; [|split; [|split]].
  - rewrite pr_aggregated_ids. apply NoDup_nodup.
  - intros k. rewrite pr_aggregated_ids. apply nodup_In.
  - intros a Ha. apply in_pr_aggregated in Ha. destruct Ha as (k & -> & _).
    unfold aggregate_group. simpl.
    destruct (sql_max_spec (map merged_at (group_of prs k))) as [HN HS].
    split; [reflexivity|]. split; [apply sum_merged|]. split.
    + rewrite HN. split.
      * intros H p Hp. apply H, in_map, Hp.
      * intros H x Hx. apply in_map_iff in Hx. destruct Hx as (p & <- & Hp). apply H, Hp.
    + intros m Hm. destruct (HS m Hm) as [Hin Hle]. split.
      * apply in_map_iff in Hin. destruct Hin as (p & Ep & Hp). exists p. split; assumption.
      * intros p v Hp Ev. apply Hle. rewrite <- Ev. apply in_map, Hp.
  - intros tag. unfold pr_aggregated.
    rewrite (map_map (fun p => mkPullRequest (pr_head p) (merged_at p) (tag p)) head_repo_id).
    change (map (fun p => head_repo_id (mkPullRequest (pr_head p) (merged_at p) (tag p))) prs)
      with (map head_repo_id prs).
    apply map_ext. intros k.
    unfold aggregate_group, group_of. rewrite filter_map_comm.
    erewrite filter_ext; [|intros p; rewrite retag_head_repo_id; reflexivity].
    rewrite length_map, !map_map. reflexivity.
Qed.

(** Claim C9: in every aggregate row, [num_prs_merged <= num_prs]. *)
Theorem merged_le_prs (prs : list pull_request) :
  Forall (fun a => num_prs_merged a <= num_prs a) (pr_aggregated prs).
Proof.
  apply Forall_forall. intros a Ha. apply in_pr_aggregated in Ha.
  destruct Ha as (k & -> & _). unfold aggregate_group. simpl.
  rewrite sum_merged. apply Nat2Z.inj_le, length_filter_le.
Qed.

(** Counterexample to claim C7: every row of [final_df] is selected with
    eight columns, not seven. *)
Lemma output_seven_fields_cex :
  ~ (forall repos prs rows c,
       final_df repos prs = SOk rows -> In c rows -> List.length (select_row c) = 7%nat).
Proof.
  intros H.
  specialize (H [repo_a] [pr_on 1 None]
                [final_of (mkJoinedRow 1 1 0 None (Some "scytale") (Some "repoA") (Some "scytale"))]
                (final_of (mkJoinedRow 1 1 0 None (Some "scytale") (Some "repoA") (Some "scytale")))).
  specialize (H ltac:(vm_compute; reflexivity) (or_introl eq_refl)).
  discriminate H.
Qed.

(** Claim C7, as the code has it: every row is selected as the eight
    columns below, in this order; the Parquet write moves
    [repository_name] into the partition value, so each stored file keeps
    the other seven columns, in the same order. *)
Theorem output_columns (c : compliance_record) :
  map fst (select_row c) =
    ["organization_name"; "repository_id"; "repository_name"; "repository_owner";
     "num_prs"; "num_prs_merged"; "merged_at"; "is_compliant"]%string /\
  fst (partition_row c) = vstr (c_repository_name c) /\
  map fst (snd (partition_row c)) =
    ["organization_name"; "repository_id"; "repository_owner";
     "num_prs"; "num_prs_merged"; "merged_at"; "is_compliant"]%string.
Proof. split; [|split]; reflexivity. Qed.

(** Counterexample to claim C10: when no record has a [head.repo] object
    with an [id] key (here the only record comes from a deleted fork), the
    column [head.repo.id] does not resolve and the job fails. *)
Lemma null_key_no_fault_cex :
  ~ (forall repos prs,
       (exists p, In p prs /\ head_repo_id p = None) -> final_df repos prs <> AnalysisException).
Proof.
  intros H. apply (H [repo_a] [pr_orphan]).
  - exists pr_orphan. split; [left; reflexivity | reflexivity].
  - reflexivity.
Qed.

(** Claim C10, as the code has it.  Suppose the other columns the job
    reads resolve: some repository record has each of the keys [full_name],
    [id] and [name], some has an [owner] object with a [login] key, and some
    pull request has a [merged_at] key.  If moreover some pull request has a
    [head.repo] object with an [id] key, the job returns rows: the records
    whose [head.repo.id] is missing or null form the null-key group, and the
    inner join drops that group, so the rows are those of the join of the
    non-null-key aggregates.  If no pull request has such a key,
    [head.repo.id] does not resolve and the job fails with
    [AnalysisException]. *)
Theorem null_key_dropped (repos : list raw_repository) (prs : list pull_request) :
  (schema_has_repo_columns repos = true -> schema_has_merged_at prs = true ->
   schema_has_head_repo_id prs = true ->
   final_df repos prs =
     SOk (map final_of
            (join (filter (fun a => if a_repository_id a then true else false) (pr_aggregated prs))
                  (map repo_filtered repos))) /\
   ((exists p, In p prs /\ head_repo_id p = None) ->
      In (aggregate_group prs None) (pr_aggregated prs))) /\
  (schema_has_head_repo_id prs = false -> final_df repos prs = AnalysisException).
Proof.
  split.
  - intros Hr Hm Hs. split.
    + unfold final_df. rewrite Hr, Hm, Hs, <- join_drops_null. reflexivity.
    + intros (p & Hp & Ep). apply in_pr_aggregated. exists None. split; [reflexivity|].
      apply nodup_In. rewrite <- Ep. apply in_map, Hp.
  - intros Hs. unfold final_df. rewrite Hs, andb_false_r. reflexivity.
Qed.

(** The spec's scenario, with a pull request from a deleted fork, and the
    same repositories with the deleted-fork pull request alone. *)
Lemma null_key_dropped_witness :
  (final_df [repo_a] [pr_on 1 None; pr_orphan] =
     SOk (map final_of
            (join (filter (fun a => if a_repository_id a then true else false)
                          (pr_aggregated [pr_on 1 None; pr_orphan]))
                  (map repo_filtered [repo_a]))) /\
   In (aggregate_group [pr_on 1 None; pr_orphan] None) (pr_aggregated [pr_on 1 None; pr_orphan])) /\
  final_df [repo_a] [pr_orphan] = AnalysisException.
Proof.
  split.
  - destruct (proj1 (null_key_dropped [repo_a] [pr_on 1 None; pr_orphan])
                eq_refl eq_refl eq_refl) as [E I].
    split; [exact E|]. apply I. exists pr_orphan. split; [right; left; reflexivity | reflexivity].
  - apply (proj2 (null_key_dropped [repo_a] [pr_orphan])). reflexivity.
Defined.

End AggSpec.

(** ** Facts about the harvest *)
Module HarvestFacts.
Import PyStr Fetcher Harvest.
Open Scope Z_scope.
Open Scope list_scope.

Lemma fetch_loop_w_agrees (rs : list (response json)) :
  forall url now acc tr o rs' t',
    fetch_loop_w rs url now acc = (tr, o, rs', t') -> fetch_loop rs url now acc = (tr, o).
Proof.
  induction rs as [|r rs IH]; intros [u|] now acc tr o rs' t' H.
  - cbn in *. destruct (truthy u); cbn in *; injection H as <- <- _ _; reflexivity.
  - cbn in *. injection H as <- <- _ _; reflexivity.
  - cbn [fetch_loop fetch_loop_w] in *.
    destruct (negb (truthy u)); [injection H as <- <- _ _; reflexivity|].
    destruct (status r =? 200).
    + destruct (fetch_loop_w rs (next_url (link r)) (now + latency r) (acc ++ body r))
        as [[[tr1 o1] rs1] t1] eqn:E.
      injection H as <- <- _ _. rewrite (IH _ _ _ _ _ _ _ E). reflexivity.
    + destruct (status r =? 403); [|injection H as <- <- _ _; reflexivity].
      destruct (rl_remaining r) as [[z|]|]; [|injection H as <- <- _ _; reflexivity
                                             |injection H as <- <- _ _; reflexivity].
      destruct (z =? 0); [|injection H as <- <- _ _; reflexivity].
      destruct (rl_reset r) as [[T|]|]; [|injection H as <- <- _ _; reflexivity
                                         |injection H as <- <- _ _; reflexivity].
      destruct (T - (now + latency r) / 1000 + 1 <? 0); [injection H as <- <- _ _; reflexivity|].
      destruct (fetch_loop_w rs (Some u) _ acc) as [[[tr1 o1] rs1] t1] eqn:E.
      injection H as <- <- _ _. rewrite (IH _ _ _ _ _ _ _ E). reflexivity.
  - cbn in *. injection H as <- <- _ _; reflexivity.
Qed.

(** [fetch_data_m] runs [fetch_data]. *)
Lemma fetch_data_m_run (url : string) (w : world) :
  exists ftr o w',
    fetch_data (fst w) url (snd w) = (ftr, o) /\
    fetch_data_m url w =
      (map HNet ftr,
       match o with
       | Returned l => HOk l
       | Raised e => HExc (lift_exc e)
       | NoMoreResponses _ => HOut
       end, w').
Proof.
  unfold fetch_data_m, fetch_data.
  destruct (fetch_loop_w (fst w) (Some url) (snd w) []) as [[[tr o] rs'] t'] eqn:E.
  exists tr, o, (rs', t'). split; [|reflexivity].
  exact (fetch_loop_w_agrees _ _ _ _ _ _ _ _ E).
Qed.

Lemma bind_ext {T U} (m : M T) (f g : T -> M U) (w : world) :
  (forall x w', f x w' = g x w') -> bind m f w = bind m g w.
Proof.
  intros H. unfold bind. destruct (m w) as [[tr [x| | |]] w']; try reflexivity.
  now rewrite H.
Qed.

Lemma bind_assoc {T U V} (m : M T) (f : T -> M U) (g : U -> M V) (w : world) :
  bind (bind m f) g w = bind m (fun x => bind (f x) g) w.
Proof.
  unfold bind. destruct (m w) as [[tr [x| | |]] w']; try reflexivity.
  destruct (f x w') as [[tr' [y| | |]] w'']; try (now rewrite app_nil_r || reflexivity).
  destruct (g y w'') as [[tr'' r] w''']. now rewrite app_assoc.
Qed.

Lemma bind_ret_l {T U} (x : T) (f : T -> M U) (w : world) : bind (ret x) f w = f x w.
Proof. unfold bind, ret. now destruct (f x w) as [[tr r] w']. Qed.

Lemma bind_ret_r {T} (m : M T) (w : world) : bind m ret w = m w.
Proof.
  unfold bind, ret. destruct (m w) as [[tr [x| | |]] w']; try reflexivity.
  now rewrite app_nil_r.
Qed.

(** The loop over [pre ++ post] is the loop over [pre] followed by the loop
    over [post] from the list collected so far. *)
Lemma harvest_app (org : string) (pre post : list json) :
  forall acc w, harvest org (pre ++ post) acc w = bind (harvest org pre acc) (harvest org post) w.
Proof.
  induction pre as [|repo pre IH]; intros acc w.
  - simpl. now rewrite bind_ret_l.
  - cbn [harvest app]. destruct (py_str repo) as [name|]; [|reflexivity].
    rewrite bind_assoc. apply bind_ext. intros prs w1. destruct prs as [|p ps].
    + apply IH.
    + rewrite bind_assoc. apply bind_ext. intros tagged w2. apply IH.
Qed.

Lemma dict_get_set_same (k : string) (v : json) (d : list (string * json)) :
  dict_get k (dict_set k v d) = Some v.
Proof.
  induction d as [|[k' v'] d IH]; simpl; [now rewrite String.eqb_refl|].
  destruct (String.eqb k k') eqn:E; simpl; [now rewrite String.eqb_refl|now rewrite E].
Qed.

Lemma dict_get_set_other (k k2 : string) (v : json) (d : list (string * json)) :
  k2 <> k -> dict_get k2 (dict_set k v d) = dict_get k2 d.
Proof.
  intros Hne. induction d as [|[k' v'] d IH]; simpl.
  - apply String.eqb_neq in Hne. now rewrite Hne.
  - destruct (String.eqb k k') eqn:E; simpl.
    + apply String.eqb_eq in E. subst k'. apply String.eqb_neq in Hne. now rewrite Hne.
    + destruct (String.eqb k2 k'); [reflexivity | exact IH].
Qed.

Lemma tag_all_run (repo : json) (prs : list json) (w : world) :
  (exists l, tag_all repo prs w = ([], HOk l, w) /\ Forall2 (tagged_as repo) prs l) \/
  (tag_all repo prs w = ([], HExc PyTypeError, w) /\ exists p, In p prs /\ forall d, p <> JObj d).
Proof.
  induction prs as [|p prs IH].
  - left. exists []. split; [reflexivity | constructor].
  - cbn [tag_all]. destruct p as [| | | | |d] eqn:Ep;
      try (right; split; [reflexivity | exists p; subst p; split; [now left | discriminate]]).
    cbn [setitem]. destruct IH as [(l & E & F)|(E & q & Hq & Hn)].
    + left. exists (JObj (dict_set "repository" repo d) :: l). split.
      * unfold bind. rewrite E. reflexivity.
      * constructor; [|exact F]. exists d, (dict_set "repository" repo d).
        split; [reflexivity|]. split; [reflexivity|]. split; [apply dict_get_set_same|].
        intros k Hk. now apply dict_get_set_other.
    + right. split; [unfold bind; rewrite E; reflexivity|]. exists q. split; [now right | exact Hn].
Qed.

End HarvestFacts.

(** ** Further properties of [fetch_data] *)
Module FetcherExtra.
Import PyStr Fetcher LinkFacts FetchFacts Fixtures.
Open Scope Z_scope.
Open Scope list_scope.

(** [fetch_data] returns what the 200 responses it consumed carried: the
    records of every 200 response among the first [n] responses, in order,
    where [n] is the number of requests it issued; a response of any other
    status adds nothing. *)
Theorem loop_collects {A} (rs : list (response A)) :
  forall url now acc tr l,
    fetch_loop rs url now acc = (tr, Returned l) ->
    l = acc ++ flat_map (fun r => if status r =? 200 then body r else [])
                        (firstn (List.length (req_urls tr)) rs).
Proof.
  induction rs as [|r rs IH]; intros [u|] now acc tr l H.
  - cbn in H. destruct (truthy u); cbn in H; [discriminate|].
    injection H as <- <-. now rewrite app_nil_r.
  - cbn in H. injection H as <- <-. now rewrite app_nil_r.
  - cbn [fetch_loop] in H.
    destruct (negb (truthy u)) eqn:Eu.
    { injection H as <- <-. now rewrite app_nil_r. }
    destruct (status r =? 200) eqn:E200.
    + destruct (fetch_loop rs (next_url (link r)) (now + latency r) (acc ++ body r))
        as [tr1 o1] eqn:E.
      cbn [fst snd] in H. injection H as <- ->.
      cbn [req_urls List.length firstn flat_map]. rewrite E200.
      rewrite (IH _ _ _ _ _ E). now rewrite app_assoc.
    + assert (Hstop : forall tr', (EReq u now :: tr', Returned acc) = (tr, Returned l) ->
                        tr' = [] -> l = acc ++ flat_map (fun r => if status r =? 200 then body r else [])
                                               (firstn (List.length (req_urls tr)) (r :: rs))).
      { intros tr' Ht ->. injection Ht as <- <-. cbn. rewrite E200. now rewrite app_nil_r. }
      destruct (status r =? 403); [|exact (Hstop [] H eq_refl)].
      destruct (rl_remaining r) as [[z|]|]; [| discriminate H | exact (Hstop [] H eq_refl)].
      destruct (z =? 0); [|exact (Hstop [] H eq_refl)].
      destruct (rl_reset r) as [[T|]|]; [| discriminate H | discriminate H].
      destruct (T - (now + latency r) / 1000 + 1 <? 0); [discriminate H|].
      destruct (fetch_loop rs (Some u) _ acc) as [tr1 o1] eqn:E.
      cbn [fst snd] in H. injection H as <- ->.
      cbn [req_urls List.length firstn flat_map]. rewrite E200.
      exact (IH _ _ _ _ _ E).
  - cbn in H. injection H as <- <-. now rewrite app_nil_r.
Qed.

Lemma loop_collects_witness :
  [1%nat; 2%nat; 3%nat] =
    [] ++ flat_map (fun r => if status r =? 200 then body r else [])
                   (firstn (List.length (req_urls [EReq "u" 10000; EReq "v" 10005])) [ok1; ok2]).
Proof.
  apply (loop_collects [ok1; ok2] (Some "u") 10000 [] [EReq "u" 10000; EReq "v" 10005]).
  vm_compute. reflexivity.
Defined.

(** When [fetch_data] returns normally, every [time.sleep] it called got a
    nonnegative duration: a negative one would have raised. *)
Theorem returned_sleeps_nonneg {A} (rs : list (response A)) :
  forall url now acc tr l,
    fetch_loop rs url now acc = (tr, Returned l) ->
    forall d, In (ESleep d) tr -> 0 <= d.
Proof.
  induction rs as [|r rs IH]; intros [u|] now acc tr l H d Hd.
  - cbn in H. destruct (truthy u); cbn in H; [discriminate|]. injection H as <- _. destruct Hd.
  - cbn in H. injection H as <- _. destruct Hd.
  - cbn [fetch_loop] in H.
    destruct (negb (truthy u)); [injection H as <- _; destruct Hd|].
    destruct (status r =? 200).
    + destruct (fetch_loop rs (next_url (link r)) (now + latency r) (acc ++ body r))
        as [tr1 o1] eqn:E.
      cbn [fst snd] in H. injection H as <- ->.
      destruct Hd as [Hd|Hd]; [discriminate Hd|]. exact (IH _ _ _ _ _ E d Hd).
    + destruct (status r =? 403); [|injection H as <- _; destruct Hd as [Hd|[]]; discriminate Hd].
      destruct (rl_remaining r) as [[z|]|];
        [| discriminate H | injection H as <- _; destruct Hd as [Hd|[]]; discriminate Hd].
      destruct (z =? 0); [|injection H as <- _; destruct Hd as [Hd|[]]; discriminate Hd].
      destruct (rl_reset r) as [[T|]|]; [| discriminate H | discriminate H].
      destruct (Z.ltb_spec (T - (now + latency r) / 1000 + 1) 0) as [Hneg|Hnn]; [discriminate H|].
      destruct (fetch_loop rs (Some u) _ acc) as [tr1 o1] eqn:E.
      cbn [fst snd] in H. injection H as <- ->.
      destruct Hd as [Hd|[Hd|Hd]]; [discriminate Hd | injection Hd as <-; exact Hnn |].
      exact (IH _ _ _ _ _ E d Hd).
  - cbn in H. injection H as <- _. destruct Hd.
Qed.

Lemma returned_sleeps_nonneg_witness :
  0 <= 11.
Proof.
  apply (returned_sleeps_nonneg [q_fresh; ok2] (Some "v") 10000 []
           [EReq "v" 10000; ESleep 11; EReq "v" 21005] [3%nat]).
  - vm_compute. reflexivity.
  - right. left. reflexivity.
Defined.

End FetcherExtra.

(** ** Properties of the harvest and of [main] *)
Module HarvestExtra.
Import PyStr Fetcher Harvest HarvestFacts HarvestFixtures.
Open Scope Z_scope.
Open Scope list_scope.

Lemma bind_ok_eq {T U} (m : M T) (f : T -> M U) (w w1 w2 : world) (tr tr2 : list hev)
    (x : T) (r : hres U) :
  m w = (tr, HOk x, w1) -> f x w1 = (tr2, r, w2) -> bind m f w = (tr ++ tr2, r, w2).
Proof. intros Hm Hf. unfold bind. now rewrite Hm, Hf. Qed.

Lemma bind_exc_eq {T U} (m : M T) (f : T -> M U) (w w1 : world) (tr : list hev) (e : pyexc) :
  m w = (tr, HExc e, w1) -> bind m f w = (tr, HExc e, w1).
Proof. intros Hm. unfold bind. now rewrite Hm. Qed.

(** A property of traces kept by [bind]. *)
Lemma bind_pres {T U} (P : list hev -> Prop) (Papp : forall a b, P a -> P b -> P (a ++ b))
    (m : M T) (f : T -> M U) (w : world) (tr : list hev) (r : hres U) (w' : world) :
  bind m f w = (tr, r, w') ->
  (forall tr1 r1 w1, m w = (tr1, r1, w1) -> P tr1) ->
  (forall tr1 x w1 tr2 r2 w2, m w = (tr1, HOk x, w1) -> f x w1 = (tr2, r2, w2) -> P tr2) ->
  P tr.
Proof.
  intros H Hm Hf. unfold bind in H.
  destruct (m w) as [[tr1 [x| | |]] w1] eqn:E;
    try (injection H as <- _ _; exact (Hm _ _ _ eq_refl)).
  destruct (f x w1) as [[tr2 r2] w2] eqn:F. injection H as <- _ _.
  apply Papp; [exact (Hm _ _ _ eq_refl) | exact (Hf _ _ _ _ _ _ eq_refl F)].
Qed.

Lemma forall2_tagged_obj (repo : json) (prs l : list json) :
  Forall2 (tagged_as repo) prs l -> forall p, In p prs -> exists d, p = JObj d.
Proof.
  induction 1 as [|p q prs l (d & d' & Ep & _) _ IH]; intros x Hx; [destruct Hx|].
  destruct Hx as [<-|Hx]; [exists d; exact Ep | exact (IH x Hx)].
Qed.

Lemma forall2_tagged_r (repo : json) (S : list json) (prs l : list json) :
  In repo S -> Forall2 (tagged_as repo) prs l ->
  Forall (fun j => exists d rp, j = JObj d /\ In rp S /\ dict_get "repository" d = Some rp) l.
Proof.
  intros HS. induction 1 as [|p q prs l (d & d' & _ & Eq & Hr & _) _ IH]; constructor; [|exact IH].
  exists d', repo. split; [exact Eq | split; [exact HS | exact Hr]].
Qed.

Lemma harvest_tagged_gen (org : string) (S : list json) (repos : list json) :
  forall acc w tr l w',
    incl repos S ->
    Forall (fun j => exists d rp, j = JObj d /\ In rp S /\ dict_get "repository" d = Some rp) acc ->
    harvest org repos acc w = (tr, HOk l, w') ->
    Forall (fun j => exists d rp, j = JObj d /\ In rp S /\ dict_get "repository" d = Some rp) l.
Proof.
  induction repos as [|repo repos IH]; intros acc w tr l w' Hincl Hacc H.
  - cbn in H. injection H as _ <- _. exact Hacc.
  - cbn [harvest] in H. destruct (py_str repo) as [name|]; [|discriminate H].
    unfold bind in H at 1.
    destruct (fetch_data_m (prs_url org name) w) as [[tr1 [prs| | |]] w1]; try discriminate H.
    destruct prs as [|p ps].
    + destruct (harvest org repos acc w1) as [[tr2 r2] w2] eqn:E. injection H as _ -> _.
      exact (IH _ _ _ _ _ (fun x Hx => Hincl x (or_intror Hx)) Hacc E).
    + unfold bind in H.
      destruct (tag_all_run repo (p :: ps) w1) as [(l' & E1 & F)|(E1 & _)];
        rewrite E1 in H; [|discriminate H].
      destruct (harvest org repos (acc ++ l') w1) as [[tr2 r2] w2] eqn:E. injection H as _ -> _.
      apply (IH _ _ _ _ _ (fun x Hx => Hincl x (or_intror Hx))) in E; [exact E|].
      apply Forall_app. split; [exact Hacc|].
      apply (forall2_tagged_r repo S (p :: ps)); [apply Hincl; now left | exact F].
Qed.

Lemma harvest_no_dump (org : string) (repos : list json) :
  forall acc w tr r w', harvest org repos acc w = (tr, r, w') ->
    forall p d, ~ In (HDump p d) tr.
Proof.
  set (P := fun tr : list hev => forall p d, ~ In (HDump p d) tr).
  assert (Papp : forall a b, P a -> P b -> P (a ++ b)).
  { intros a b Ha Hb p d Hin. apply in_app_or in Hin as [Hin|Hin]; [exact (Ha p d Hin) | exact (Hb p d Hin)]. }
  induction repos as [|repo repos IH]; intros acc w tr r w' H.
  - cbn in H. injection H as <- _ _. intros p d [].
  - cbn [harvest] in H. destruct (py_str repo) as [name|]; [|injection H as <- _ _; intros p d []].
    apply (bind_pres P Papp _ _ _ _ _ _ H).
    + intros tr1 r1 w1 Hm. destruct (fetch_data_m_run (prs_url org name) w) as (ftr & o & w2 & _ & E).
      rewrite E in Hm. injection Hm as <- _ _. intros p d Hin.
      apply in_map_iff in Hin. destruct Hin as (x & Ex & _). discriminate Ex.
    + intros tr1 prs w1 tr2 r2 w2 _ Hf. destruct prs as [|p0 ps]; [exact (IH _ _ _ _ _ Hf)|].
      apply (bind_pres P Papp _ _ _ _ _ _ Hf).
      * intros tr3 r3 w3 Ht.
        destruct (tag_all_run repo (p0 :: ps) w1) as [(l' & E1 & _)|(E1 & _)];
          rewrite E1 in Ht; injection Ht as <- _ _; intros p d [].
      * intros tr3 x w3 tr4 r4 w4 _ Hh. exact (IH _ _ _ _ _ Hh).
Qed.

Lemma map_m_getitem_trace (key : string) (l : list json) :
  forall w tr r w', map_m (getitem key) l w = (tr, r, w') -> tr = [].
Proof.
  induction l as [|j l IH]; intros w tr r w' H.
  - cbn in H. now injection H as <- _ _.
  - cbn [map_m] in H. unfold bind in H at 1.
    assert (Hg : forall w0, exists r0, getitem key j w0 = ([], r0, w0)).
    { intros w0. unfold getitem, ret, raise.
      destruct j as [| | | | |d]; try (eexists; reflexivity).
      destruct (dict_get key d); eexists; reflexivity. }
    destruct (Hg w) as [r0 E]. rewrite E in H.
    destruct r0 as [y| | |]; try (injection H as <- _ _; reflexivity).
    unfold bind in H. destruct (map_m (getitem key) l w) as [[tr1 [ys| | |]] w1] eqn:F;
      injection H as <- _ _; rewrite (IH _ _ _ _ F); reflexivity.
Qed.

(** The first request of [fetch_data] at a URL meets a response that is
    neither a 200 nor a quota exhaustion: the call returns [[]]. *)
Lemma fetch_fail_first (url : string) (r : response json) (rs : list (response json)) (now : Z) :
  truthy url = true -> status r <> 200 ->
  (status r = 403 -> rl_remaining r = None \/ exists z, z <> 0 /\ rl_remaining r = Some (HInt z)) ->
  fetch_data_m url (r :: rs, now) = ([HNet (EReq url now)], HOk [], (rs, now + latency r)).
Proof.
  intros Hu H200 H403. unfold fetch_data_m. cbn [fst snd fetch_loop_w]. rewrite Hu. cbn [negb].
  destruct (Z.eqb_spec (status r) 200) as [E|_]; [contradiction|].
  destruct (Z.eqb_spec (status r) 403) as [E|_]; [|reflexivity].
  destruct (H403 E) as [->|(z & Hz & ->)]; [reflexivity|].
  destruct (Z.eqb_spec z 0); [contradiction | reflexivity].
Qed.

(** Lines 112-113: tagging sets ["repository"] on every record, keeps all
    other keys of each record as they were, and keeps the records in order;
    it issues no request. *)
Theorem tag_all_preserves (repo : json) (prs l : list json) (w w' : world) (tr : list hev) :
  tag_all repo prs w = (tr, HOk l, w') -> tr = [] /\ w' = w /\ Forall2 (tagged_as repo) prs l.
Proof.
  intros H. destruct (tag_all_run repo prs w) as [(l' & E & F)|(E & _)]; rewrite E in H;
    [|discriminate H].
  injection H as <- <- <-. split; [reflexivity | split; [reflexivity | exact F]].
Qed.

Lemma tag_all_preserves_witness :
  [] = @nil hev /\ (([], 0) : world) = ([], 0) /\
  Forall2 (tagged_as (JStr "a")) [pr_rec 1]
          [JObj [("number", JInt 1); ("repository", JStr "a")]].
Proof.
  apply (tag_all_preserves (JStr "a") [pr_rec 1] [JObj [("number", JInt 1); ("repository", JStr "a")]]
           ([], 0) ([], 0) []).
  reflexivity.
Defined.

(** Every record returned by [fetch_pull_requests] is a dict whose
    ["repository"] key holds one of the repository names it was given. *)
Theorem fetch_pull_requests_tagged (org : string) (repos : list json) (w w' : world)
    (tr : list hev) (l : list json) :
  fetch_pull_requests org repos w = (tr, HOk l, w') ->
  Forall (fun j => exists d rp, j = JObj d /\ In rp repos /\ dict_get "repository" d = Some rp) l.
Proof.
  intros H. apply (harvest_tagged_gen org repos repos [] w tr l w'); [apply incl_refl | constructor | exact H].
Qed.

Lemma fetch_pull_requests_tagged_witness :
  Forall (fun j => exists d rp, j = JObj d /\ In rp [JStr "a"; JStr "b"] /\
                                dict_get "repository" d = Some rp)
         [JObj [("number", JInt 1); ("repository", JStr "a")];
          JObj [("number", JInt 2); ("repository", JStr "b")]].
Proof.
  apply (fetch_pull_requests_tagged "org" [JStr "a"; JStr "b"]
           ([ok_json [pr_rec 1]; ok_json [pr_rec 2]], 0) ([], 10)
           [HNet (EReq (prs_url "org" "a") 0); HNet (EReq (prs_url "org" "b") 5)]).
  vm_compute. reflexivity.
Defined.

(** A repository whose pull-request listing fails at once contributes
    nothing, and the harvest goes on with the next repositories from the
    same list.  The failure is a status other than 200 that, when it is
    403, carries an [X-RateLimit-Remaining] header that is absent or a
    nonzero integer. *)
Theorem harvest_skips_failed_repo (org : string) (pre post : list json) (name : string)
    (r : response json) (rs : list (response json)) (now : Z) (w : world) (acc : list json)
    (tr1 tr3 : list hev) (res : hres (list json)) (w3 : world) :
  harvest org pre [] w = (tr1, HOk acc, (r :: rs, now)) ->
  status r <> 200 ->
  (status r = 403 -> rl_remaining r = None \/ exists z, z <> 0 /\ rl_remaining r = Some (HInt z)) ->
  harvest org post acc (rs, now + latency r) = (tr3, res, w3) ->
  fetch_pull_requests org (pre ++ JStr name :: post) w =
    (tr1 ++ HNet (EReq (prs_url org name) now) :: tr3, res, w3).
Proof.
  intros H1 H200 H403 H3. unfold fetch_pull_requests. rewrite harvest_app.
  apply (bind_ok_eq _ _ _ _ _ _ _ _ _ H1).
  cbn [harvest py_str].
  apply (bind_ok_eq _ _ _ (rs, now + latency r) _ [HNet (EReq (prs_url org name) now)] _ [] _).
  - apply fetch_fail_first; [reflexivity | exact H200 | exact H403].
  - exact H3.
Qed.

Lemma harvest_skips_failed_repo_witness :
  fetch_pull_requests "org" ([] ++ JStr "a" :: [JStr "b"]) ([fail_json; ok_json [pr_rec 2]], 0) =
    ([] ++ HNet (EReq (prs_url "org" "a") 0) :: [HNet (EReq (prs_url "org" "b") 5)],
     HOk [JObj [("number", JInt 2); ("repository", JStr "b")]], ([], 10)).
Proof.
  apply (harvest_skips_failed_repo "org" [] [JStr "b"] "a" fail_json [ok_json [pr_rec 2]] 0
           ([fail_json; ok_json [pr_rec 2]], 0) []).
  - reflexivity.
  - discriminate.
  - discriminate.
  - vm_compute. reflexivity.
Defined.

(** An exception raised while fetching one repository's pull requests
    ends [fetch_pull_requests] with that exception: no later repository is
    requested and the records collected so far are lost. *)
Theorem harvest_stops_on_exception (org : string) (pre post : list json) (name : string)
    (w w1 w2 : world) (tr1 tr2 : list hev) (acc : list json) (e : pyexc) :
  harvest org pre [] w = (tr1, HOk acc, w1) ->
  fetch_data_m (prs_url org name) w1 = (tr2, HExc e, w2) ->
  fetch_pull_requests org (pre ++ JStr name :: post) w = (tr1 ++ tr2, HExc e, w2).
Proof.
  intros H1 H2. unfold fetch_pull_requests. rewrite harvest_app.
  apply (bind_ok_eq _ _ _ _ _ _ _ _ _ H1).
  cbn [harvest py_str]. exact (bind_exc_eq _ _ _ _ _ _ H2).
Qed.

Lemma harvest_stops_on_exception_witness :
  fetch_pull_requests "org" ([JStr "a"] ++ JStr "b" :: [JStr "c"])
    ([ok_json [pr_rec 1]; noreset_json; ok_json [pr_rec 3]], 0) =
  ([HNet (EReq (prs_url "org" "a") 0)] ++ [HNet (EReq (prs_url "org" "b") 5)],
   HExc PyKeyError, ([ok_json [pr_rec 3]], 10)).
Proof.
  apply (harvest_stops_on_exception "org" [JStr "a"] [JStr "c"] "b"
           ([ok_json [pr_rec 1]; noreset_json; ok_json [pr_rec 3]], 0)
           ([noreset_json; ok_json [pr_rec 3]], 5) ([ok_json [pr_rec 3]], 10)
           [HNet (EReq (prs_url "org" "a") 0)] [HNet (EReq (prs_url "org" "b") 5)]
           [JObj [("number", JInt 1); ("repository", JStr "a")]]).
  - vm_compute. reflexivity.
  - vm_compute. reflexivity.
Defined.

(** A pull-request listing that contains a value other than a JSON object
    makes line 113 raise [TypeError], which ends [fetch_pull_requests]. *)
Theorem harvest_type_error (org : string) (pre post : list json) (name : string)
    (w w1 w2 : world) (tr1 tr2 : list hev) (acc prs : list json) :
  harvest org pre [] w = (tr1, HOk acc, w1) ->
  fetch_data_m (prs_url org name) w1 = (tr2, HOk prs, w2) ->
  (exists p, In p prs /\ forall d, p <> JObj d) ->
  fetch_pull_requests org (pre ++ JStr name :: post) w = (tr1 ++ tr2, HExc PyTypeError, w2).
Proof.
  intros H1 H2 (p & Hp & Hn). unfold fetch_pull_requests. rewrite harvest_app.
  apply (bind_ok_eq _ _ _ _ _ _ _ _ _ H1).
  cbn [harvest py_str]. unfold bind at 1. rewrite H2.
  destruct prs as [|p0 ps]; [destruct Hp|].
  unfold bind.
  destruct (tag_all_run (JStr name) (p0 :: ps) w2) as [(l' & E & F)|(E & _)].
  - destruct (forall2_tagged_obj _ _ _ F p Hp) as [d Ed]. exfalso. exact (Hn d Ed).
  - rewrite E. now rewrite app_nil_r.
Qed.

Lemma harvest_type_error_witness :
  fetch_pull_requests "org" ([] ++ JStr "a" :: []) ([ok_json [JInt 7]], 0) =
    ([] ++ [HNet (EReq (prs_url "org" "a") 0)], HExc PyTypeError, ([], 5)).
Proof.
  apply (harvest_type_error "org" [] [] "a" ([ok_json [JInt 7]], 0) ([ok_json [JInt 7]], 0) ([], 5)
           [] [HNet (EReq (prs_url "org" "a") 0)] [] [JInt 7]).
  - reflexivity.
  - vm_compute. reflexivity.
  - exists (JInt 7). split; [now left | discriminate].
Defined.

(** With [GITHUB_ORGANIZATION] unset, [main] creates the directory, fetches
    the repositories of the organization named ["None"], and then fails on
    [organization.lower()] with [AttributeError] whenever that fetch
    returned: nothing is written. *)
Theorem main_org_unset (root : string) (w : world) :
  exists ftr o w',
    fetch_data (fst w) (repos_url "None") (snd w) = (ftr, o) /\
    main None root w =
      (HMkdir (path_div (path_div root "data") "input") :: map HNet ftr,
       match o with
       | Returned _ => HExc PyAttributeError
       | Raised e => HExc (lift_exc e)
       | NoMoreResponses _ => HOut
       end, w').
Proof.
  destruct (fetch_data_m_run (repos_url "None") w) as (ftr & o & w' & Ef & Em).
  exists ftr, o, w'. split; [exact Ef|].
  unfold main. cbv zeta.
  change (HMkdir (path_div (path_div root "data") "input") :: map HNet ftr)
    with ([HMkdir (path_div (path_div root "data") "input")] ++ map HNet ftr).
  apply bind_ok_eq with (w1 := w) (x := tt); [reflexivity|].
  unfold fetch_repositories. change (org_str None) with "None".
  unfold bind. rewrite Em.
  destruct o; cbn; [rewrite app_nil_r|..]; reflexivity.
Qed.

(** An organization without repositories: [main] creates the directory,
    makes the requests of the repository listing, and writes no file. *)
Theorem main_no_repos (o root : string) (w : world) (ftr : list event) :
  fetch_data (fst w) (repos_url o) (snd w) = (ftr, Returned []) ->
  exists w', main (Some o) root w =
    (HMkdir (path_div (path_div root "data") "input") :: map HNet ftr, HOk tt, w').
Proof.
  intros Hf. destruct (fetch_data_m_run (repos_url o) w) as (ftr' & o' & w' & Ef & Em).
  rewrite Hf in Ef. injection Ef as <- <-. exists w'.
  unfold main. cbv zeta.
  change (HMkdir (path_div (path_div root "data") "input") :: map HNet ftr)
    with ([HMkdir (path_div (path_div root "data") "input")] ++ map HNet ftr).
  apply bind_ok_eq with (w1 := w) (x := tt); [reflexivity|].
  unfold fetch_repositories. change (org_str (Some o)) with o.
  unfold bind. rewrite Em. cbn. now rewrite !app_nil_r.
Qed.

Lemma main_no_repos_witness :
  exists w', main (Some "org") "/p" ([ok_json []], 0) =
    (HMkdir (path_div (path_div "/p" "data") "input") :: map HNet [EReq (repos_url "org") 0],
     HOk tt, w').
Proof.
  apply (main_no_repos "org" "/p" ([ok_json []], 0) [EReq (repos_url "org") 0]).
  vm_compute. reflexivity.
Defined.

(** [main] writes at most two files, each with a non-empty record list: the
    repositories file and the pull-requests file, both named from the
    organization lowered with dashes replaced by underscores, inside
    [<root>/data/input]. *)
Theorem main_dumps (o root : string) (w : world) (tr : list hev) (r : hres unit) (w' : world) :
  main (Some o) root w = (tr, r, w') ->
  forall p d, In (HDump p d) tr ->
    d <> [] /\
    (p = os_path_join (path_div (path_div root "data") "input")
                      (replace_dash (py_lower o) ++ "_repositories.json") \/
     p = os_path_join (path_div (path_div root "data") "input")
                      (replace_dash (py_lower o) ++ "_pull_requests.json")).
Proof.
  set (dyn := path_div (path_div root "data") "input").
  set (P := fun tr : list hev => forall p d, In (HDump p d) tr ->
    d <> [] /\ (p = os_path_join dyn (replace_dash (py_lower o) ++ "_repositories.json") \/
                p = os_path_join dyn (replace_dash (py_lower o) ++ "_pull_requests.json"))).
  assert (Papp : forall a b, P a -> P b -> P (a ++ b)).
  { intros a b Ha Hb p d Hin. apply in_app_or in Hin as [Hin|Hin]; [exact (Ha p d Hin) | exact (Hb p d Hin)]. }
  assert (Pnil : P []) by (intros p d []).
  assert (Pnet : forall url w0 tr0 r0 w1, fetch_data_m url w0 = (tr0, r0, w1) -> P tr0).
  { intros url w0 tr0 r0 w1 H. destruct (fetch_data_m_run url w0) as (ftr & oo & w2 & _ & E).
    rewrite E in H. injection H as <- _ _. intros p d Hin.
    apply in_map_iff in Hin. destruct Hin as (x & Ex & _). discriminate Ex. }
  assert (Pstem : forall w0 tr0 x w1, file_stem (Some o) w0 = (tr0, HOk x, w1) ->
                    tr0 = [] /\ x = replace_dash (py_lower o)).
  { intros w0 tr0 x w1 H. cbn in H. injection H as <- <- _. split; reflexivity. }
  assert (Psave : forall data fname w0 tr0 r0 w1,
             (fname = (replace_dash (py_lower o) ++ "_repositories.json")%string \/
              fname = (replace_dash (py_lower o) ++ "_pull_requests.json")%string) ->
             save_df_as_json data dyn fname w0 = (tr0, r0, w1) -> P tr0).
  { intros data fname w0 tr0 r0 w1 Hn H. destruct data as [|j data].
    - cbn in H. injection H as <- _ _. exact Pnil.
    - cbn in H. injection H as <- _ _. intros p d [Hin|[Hin|[]]]; [discriminate Hin|].
      injection Hin as <- <-. split; [discriminate|].
      destruct Hn as [->| ->]; [left|right]; reflexivity. }
  intros H. change (P tr). unfold main in H. cbv zeta in H. fold dyn in H.
  apply (bind_pres P Papp _ _ _ _ _ _ H).
  { intros tr1 r1 w1 Hm. cbn in Hm. injection Hm as <- _ _.
    intros p d [Hin|[]]. discriminate Hin. }
  intros _ u0 w1 tr2 r2 w2 _ H2.
  apply (bind_pres P Papp _ _ _ _ _ _ H2); [intros tr1 r1 w3 Hm; exact (Pnet _ _ _ _ _ Hm)|].
  intros _ repos_data w3 tr3 r3 w4 _ H3.
  apply (bind_pres P Papp _ _ _ _ _ _ H3).
  { intros tr1 r1 w5 Hm. cbn in Hm. injection Hm as <- _ _. exact Pnil. }
  intros tr1 stem w5 tr4 r4 w6 Hs H4. destruct (Pstem _ _ _ _ Hs) as [_ ->].
  apply (bind_pres P Papp _ _ _ _ _ _ H4).
  { intros tr5 r5 w7 Hm. exact (Psave _ _ _ _ _ _ (or_introl eq_refl) Hm). }
  intros _ u w7 tr5 r5 w8 _ H5.
  destruct repos_data as [|j repos_data]; [cbn in H5; injection H5 as <- _ _; exact Pnil|].
  apply (bind_pres P Papp _ _ _ _ _ _ H5).
  { intros tr6 r6 w9 Hm. rewrite (map_m_getitem_trace _ _ _ _ _ _ Hm). exact Pnil. }
  intros _ repositories w9 tr6 r6 w10 _ H6.
  apply (bind_pres P Papp _ _ _ _ _ _ H6).
  { intros tr7 r7 w11 Hm. intros p d Hin. exfalso. exact (harvest_no_dump _ _ _ _ _ _ _ Hm p d Hin). }
  intros _ pr_data w11 tr7 r7 w12 _ H7.
  apply (bind_pres P Papp _ _ _ _ _ _ H7).
  { intros tr8 r8 w13 Hm. cbn in Hm. injection Hm as <- _ _. exact Pnil. }
  intros tr8 stem' w13 tr9 r9 w14 Hs' H8. destruct (Pstem _ _ _ _ Hs') as [_ ->].
  exact (Psave _ _ _ _ _ _ (or_intror eq_refl) H8).
Qed.

Lemma main_dumps_witness :
  [repo_rec "x"] <> [] /\
  (os_path_join (path_div (path_div "/p" "data") "input")
                (replace_dash (py_lower "Ab-c") ++ "_repositories.json") =
     os_path_join (path_div (path_div "/p" "data") "input")
                  (replace_dash (py_lower "Ab-c") ++ "_repositories.json") \/
   os_path_join (path_div (path_div "/p" "data") "input")
                (replace_dash (py_lower "Ab-c") ++ "_repositories.json") =
     os_path_join (path_div (path_div "/p" "data") "input")
                  (replace_dash (py_lower "Ab-c") ++ "_pull_requests.json")).
Proof.
  apply (main_dumps "Ab-c" "/p" ([ok_json [repo_rec "x"]; ok_json [pr_rec 1]], 0)
           (fst (fst (main (Some "Ab-c") "/p" ([ok_json [repo_rec "x"]; ok_json [pr_rec 1]], 0))))
           (snd (fst (main (Some "Ab-c") "/p" ([ok_json [repo_rec "x"]; ok_json [pr_rec 1]], 0))))
           (snd (main (Some "Ab-c") "/p" ([ok_json [repo_rec "x"]; ok_json [pr_rec 1]], 0)))).
  - vm_compute. reflexivity.
  - vm_compute. repeat first [left; reflexivity | right].
Defined.

(** The file-name stem [organization.lower().replace("-", "_")] contains
    no dash and no ASCII capital letter. *)
Theorem file_stem_clean (o : string) (n : nat) (c : ascii) :
  String.get n (replace_dash (py_lower o)) = Some c ->
  c <> "-"%char /\ ~ (65 <= nat_of_ascii c <= 90)%nat.
Proof.
  revert n. induction o as [|a o IH]; intros n H; [destruct n; discriminate H|].
  destruct n as [|n]; [|exact (IH n H)].
  cbn [py_lower replace_dash String.get] in H. injection H as <-.
  destruct (Ascii.eqb_spec (py_lower_char a) "-") as [_|Hne].
  - split; [discriminate | cbn; lia].
  - split; [exact Hne|]. unfold py_lower_char. pose proof (nat_ascii_bounded a) as Hb.
    set (k := nat_of_ascii a) in *.
    destruct (((65 <=? k) && (k <=? 90)) || ((192 <=? k) && (k <=? 222) && negb (k =? 215)))%nat
      eqn:Ec.
    + apply orb_true_iff in Ec. rewrite !andb_true_iff, !Nat.leb_le in Ec.
      rewrite nat_ascii_embedding by lia. lia.
    + intros [H1 H2]. fold k in H1, H2. apply Nat.leb_le in H1. apply Nat.leb_le in H2.
      rewrite H1, H2 in Ec. discriminate Ec.
Qed.

Lemma file_stem_clean_witness :
  "_"%char <> "-"%char /\ ~ (65 <= nat_of_ascii "_" <= 90)%nat.
Proof.
  apply (file_stem_clean "Scytale-Inc" 7). reflexivity.
Defined.

End HarvestExtra.

(** ** Further properties of the aggregation *)
Module AggExtra.
Import PyStr Aggregator AggFacts Fixtures.
Open Scope Z_scope.
Open Scope list_scope.

Definition zsum (l : list Z) : Z := fold_right Z.add 0 l.

Lemma zsum_plus {T} (f g : T -> Z) (l : list T) :
  zsum (map (fun x => f x + g x) l) = zsum (map f l) + zsum (map g l).
Proof. induction l as [|x l IH]; cbn; [reflexivity|]. unfold zsum in IH. rewrite IH. lia. Qed.

Lemma zsum_indicator_absent (x : option Z) (ks : list (option Z)) :
  ~ In x ks -> zsum (map (fun k => if key_eqb x k then 1 else 0) ks) = 0.
Proof.
  induction ks as [|k ks IH]; intros Hn; [reflexivity|]. cbn.
  unfold key_eqb at 1. destruct (key_eq_dec x k) as [->|_]; [exfalso; apply Hn; now left|].
  unfold zsum in IH. rewrite IH; [reflexivity|]. intros H. apply Hn. now right.
Qed.

Lemma zsum_indicator_present (x : option Z) (ks : list (option Z)) :
  NoDup ks -> In x ks -> zsum (map (fun k => if key_eqb x k then 1 else 0) ks) = 1.
Proof.
  induction 1 as [|k ks Hk Hnd IH]; intros Hx; [destruct Hx|]. cbn.
  unfold key_eqb at 1. destruct (key_eq_dec x k) as [->|Hne].
  - fold (zsum (map (fun k0 => if key_eqb k k0 then 1 else 0) ks)).
    rewrite zsum_indicator_absent by exact Hk. reflexivity.
  - destruct Hx as [->|Hx]; [contradiction|]. unfold zsum in IH. rewrite IH by exact Hx. reflexivity.
Qed.

Lemma group_of_cons (p : pull_request) (prs : list pull_request) (k : option Z) :
  Z.of_nat (List.length (group_of (p :: prs) k)) =
  (if key_eqb (head_repo_id p) k then 1 else 0) + Z.of_nat (List.length (group_of prs k)).
Proof. unfold group_of. cbn [filter]. destruct (key_eqb (head_repo_id p) k); cbn [List.length]; lia. Qed.

Lemma zsum_groups (prs : list pull_request) (ks : list (option Z)) :
  NoDup ks -> (forall p, In p prs -> In (head_repo_id p) ks) ->
  zsum (map (fun k => Z.of_nat (List.length (group_of prs k))) ks) = Z.of_nat (List.length prs).
Proof.
  intros Hnd. induction prs as [|p prs IH]; intros Hin.
  - clear. induction ks as [|k ks IHk]; [reflexivity|]. unfold zsum in *. cbn in *. exact IHk.
  - rewrite (map_ext _ _ (group_of_cons p prs)), zsum_plus.
    rewrite zsum_indicator_present by (exact Hnd || (apply Hin; now left)).
    rewrite IH by (intros q Hq; apply Hin; now right). cbn [List.length]. lia.
Qed.

Lemma agg_num_prs_pos (prs : list pull_request) (a : agg_row) :
  In a (pr_aggregated prs) -> 1 <= num_prs a.
Proof.
  intros Ha. apply in_pr_aggregated in Ha. destruct Ha as (k & -> & Hk).
  apply nodup_In, in_map_iff in Hk. destruct Hk as (p & Ep & Hp).
  unfold aggregate_group. cbn [num_prs].
  assert (Hg : In p (group_of prs k)) by (apply filter_In; split; [exact Hp | rewrite Ep; apply key_eqb_refl]).
  destruct (group_of prs k); [destruct Hg|]. cbn [List.length]. lia.
Qed.

Lemma filter_nil_iff {T} (f : T -> bool) (l : list T) :
  filter f l = [] <-> forall x, In x l -> f x = false.
Proof.
  induction l as [|x l IH]; cbn; [split; [intros _ y []|reflexivity]|].
  destruct (f x) eqn:E; split.
  - discriminate.
  - intros H. rewrite (H x (or_introl eq_refl)) in E. discriminate.
  - intros H y [<-|Hy]; [exact E | apply IH; assumption].
  - intros H. apply IH. intros y Hy. apply H. now right.
Qed.

Lemma agg_merged_at_none_iff (prs : list pull_request) (a : agg_row) :
  In a (pr_aggregated prs) -> (a_merged_at a = None <-> num_prs_merged a = 0).
Proof.
  intros Ha. apply in_pr_aggregated in Ha. destruct Ha as (k & -> & _).
  unfold aggregate_group. cbn [a_merged_at num_prs_merged]. rewrite sum_merged.
  destruct (sql_max_spec (map merged_at (group_of prs k))) as [HN _]. rewrite HN.
  split.
  - intros H. assert (E : filter (fun p => match merged_at p with Some _ => true | None => false end)
                            (group_of prs k) = []).
    { apply filter_nil_iff. intros p Hp. rewrite (H (merged_at p) (in_map _ _ _ Hp)). reflexivity. }
    rewrite E. reflexivity.
  - intros H x Hx. apply in_map_iff in Hx. destruct Hx as (p & <- & Hp).
    assert (E : filter (fun p => match merged_at p with Some _ => true | None => false end)
                  (group_of prs k) = []).
    { apply length_zero_iff_nil. lia. }
    rewrite filter_nil_iff in E. specialize (E p Hp). destruct (merged_at p); [discriminate E|reflexivity].
Qed.

Lemma str_leb_antisym (a b : string) : (a <=? b)%string = true -> (b <=? a)%string = true -> a = b.
Proof.
  rewrite !str_leb_iff. intros [H|H] [H'|H']; auto.
  exfalso. apply (StrictOrder_Irreflexive a). exact (StrictOrder_Transitive _ _ _ H H').
Qed.

Lemma sql_max_perm (l l' : list (option string)) : Permutation l l' -> sql_max l = sql_max l'.
Proof.
  intros P. destruct (sql_max_spec l) as [HN HS], (sql_max_spec l') as [HN' HS'].
  destruct (sql_max l) as [m|] eqn:E, (sql_max l') as [m'|] eqn:E'.
  - destruct (HS m eq_refl) as [Hm Hlm], (HS' m' eq_refl) as [Hm' Hlm'].
    f_equal. apply str_leb_antisym.
    + apply Hlm'. exact (Permutation_in _ P Hm).
    + apply Hlm. exact (Permutation_in _ (Permutation_sym P) Hm').
  - exfalso. destruct (HS m eq_refl) as [Hm _].
    assert (H0 : Some m = None) by (apply (proj1 HN' eq_refl); exact (Permutation_in _ P Hm)).
    discriminate H0.
  - exfalso. destruct (HS' m' eq_refl) as [Hm' _].
    assert (H0 : Some m' = None)
      by (apply (proj1 HN eq_refl); exact (Permutation_in _ (Permutation_sym P) Hm')).
    discriminate H0.
  - reflexivity.
Qed.

Lemma perm_filter {T} (f : T -> bool) (l l' : list T) :
  Permutation l l' -> Permutation (filter f l) (filter f l').
Proof.
  induction 1 as [|x l l' _ IH|x y l|l l' l'' _ IH1 _ IH2]; cbn.
  - constructor.
  - destruct (f x); [apply perm_skip|]; exact IH.
  - destruct (f x), (f y); try constructor; apply Permutation_refl.
  - exact (Permutation_trans IH1 IH2).
Qed.

Lemma existsb_perm {T} (f : T -> bool) (l l' : list T) :
  Permutation l l' -> existsb f l = existsb f l'.
Proof.
  induction 1 as [|x l l' _ IH|x y l|l l' l'' _ IH1 _ IH2]; cbn.
  - reflexivity.
  - now rewrite IH.
  - destruct (f x), (f y); reflexivity.
  - congruence.
Qed.

Lemma perm_flat_map {T U} (f : T -> list U) (l l' : list T) :
  Permutation l l' -> Permutation (flat_map f l) (flat_map f l').
Proof.
  induction 1 as [|x l l' _ IH|x y l|l l' l'' _ IH1 _ IH2]; cbn.
  - constructor.
  - apply Permutation_app_head, IH.
  - rewrite !app_assoc. apply Permutation_app_tail, Permutation_app_comm.
  - exact (Permutation_trans IH1 IH2).
Qed.

Lemma perm_flat_map_pointwise {T U} (f g : T -> list U) (l : list T) :
  (forall x, Permutation (f x) (g x)) -> Permutation (flat_map f l) (flat_map g l).
Proof.
  intros H. induction l as [|x l IH]; cbn; [constructor|]. apply Permutation_app; [apply H | exact IH].
Qed.

Lemma aggregate_group_perm (prs prs' : list pull_request) (k : option Z) :
  Permutation prs prs' -> aggregate_group prs k = aggregate_group prs' k.
Proof.
  intros P. assert (G : Permutation (group_of prs k) (group_of prs' k)) by (apply perm_filter, P).
  unfold aggregate_group. rewrite !sum_merged.
  rewrite (Permutation_length G).
  rewrite (Permutation_length (perm_filter (fun p => match merged_at p with Some _ => true | None => false end) _ _ G)).
  rewrite (sql_max_perm _ _ (Permutation_map merged_at G)). reflexivity.
Qed.

Lemma pr_aggregated_perm (prs prs' : list pull_request) :
  Permutation prs prs' -> Permutation (pr_aggregated prs) (pr_aggregated prs').
Proof.
  intros P. unfold pr_aggregated.
  rewrite (map_ext (aggregate_group prs) (aggregate_group prs') (fun k => aggregate_group_perm prs prs' k P)).
  apply Permutation_map, NoDup_Permutation; try apply NoDup_nodup.
  intros k. rewrite !nodup_In. split; intros H.
  - exact (Permutation_in _ (Permutation_map _ P) H).
  - exact (Permutation_in _ (Permutation_map _ (Permutation_sym P)) H).
Qed.

Lemma join_perm (aggs aggs' : list agg_row) (rs rs' : list repo_row) :
  Permutation aggs aggs' -> Permutation rs rs' -> Permutation (join aggs rs) (join aggs' rs').
Proof.
  intros Pa Pr. unfold join. eapply Permutation_trans; [apply perm_flat_map, Pa|].
  apply perm_flat_map_pointwise. intros a. apply perm_flat_map, Pr.
Qed.

Lemma filter_flat_map {T U} (f : U -> bool) (g : T -> list U) (l : list T) :
  filter f (flat_map g l) = flat_map (fun x => filter f (g x)) l.
Proof.
  induction l as [|x l IH]; cbn; [reflexivity|]. rewrite <- IH.
  induction (g x) as [|y ys IHy]; cbn; [reflexivity|]. destruct (f y); cbn; congruence.
Qed.

Definition nsum (l : list nat) : nat := fold_right Nat.add 0%nat l.

Lemma length_flat_map' {T U} (g : T -> list U) (l : list T) :
  List.length (flat_map g l) = nsum (map (fun x => List.length (g x)) l).
Proof. induction l as [|x l IH]; cbn; [reflexivity|]. rewrite length_app, IH. reflexivity. Qed.

Lemma key_eqb_some (x y : Z) : key_eqb (Some x) (Some y) = (x =? y).
Proof. unfold key_eqb. destruct (key_eq_dec (Some x) (Some y)), (Z.eqb_spec x y); congruence. Qed.

Lemma key_eqb_none_some (y : Z) : key_eqb None (Some y) = false.
Proof. unfold key_eqb. destruct (key_eq_dec None (Some y)); [discriminate | reflexivity]. Qed.

Lemma join_rows_of_agg (a : agg_row) (rs : list repo_row) (k : Z) :
  List.length (filter (fun j => j_repository_id j =? k)
    (flat_map (fun r =>
       match a_repository_id a, repository_id r with
       | Some x, Some y =>
           if x =? y then
             [mkJoinedRow x (num_prs a) (num_prs_merged a) (a_merged_at a)
                (organization_name r) (repository_name r) (repository_owner r)]
           else []
       | _, _ => []
       end) rs)) =
  if key_eqb (a_repository_id a) (Some k)
  then List.length (filter (fun r => key_eqb (repository_id r) (Some k)) rs) else 0%nat.
Proof.
  induction rs as [|r rs IH]; cbn [flat_map filter List.length];
    [destruct (key_eqb (a_repository_id a) (Some k)); reflexivity|].
  rewrite filter_app, length_app, IH.
  destruct (a_repository_id a) as [x|], (repository_id r) as [y|];
    rewrite ?key_eqb_some, ?key_eqb_none_some;
    repeat (cbn; match goal with |- context [?u =? ?v] => destruct (Z.eqb_spec u v) end);
    cbn; subst; try lia; congruence.
Qed.

Lemma nsum_indicator (aggs : list agg_row) (c : nat) (k : Z) :
  NoDup (map a_repository_id aggs) ->
  nsum (map (fun a => if key_eqb (a_repository_id a) (Some k) then c else 0%nat) aggs) =
  if in_dec key_eq_dec (Some k) (map a_repository_id aggs) then c else 0%nat.
Proof.
  induction aggs as [|a aggs IH]; intros Hnd; [reflexivity|]. cbn [map nsum fold_right].
  inversion Hnd as [|? ? Hn Hnd']; subst. fold (nsum (map (fun a => if key_eqb (a_repository_id a) (Some k) then c else 0%nat) aggs)).
  rewrite IH by exact Hnd'. unfold key_eqb.
  destruct (key_eq_dec (a_repository_id a) (Some k)) as [E|E].
  - rewrite E in Hn. destruct (in_dec key_eq_dec (Some k) (map a_repository_id aggs)); [contradiction|].
    destruct (in_dec key_eq_dec (Some k) (a_repository_id a :: map a_repository_id aggs)) as [_|F];
      [lia|]. exfalso. apply F. left. exact E.
  - destruct (in_dec key_eq_dec (Some k) (map a_repository_id aggs)) as [I|I];
    destruct (in_dec key_eq_dec (Some k) (a_repository_id a :: map a_repository_id aggs)) as [I'|I'];
      try lia.
    + exfalso. apply I'. now right.
    + exfalso. destruct I' as [I'|I']; [exact (E I') | exact (I I')].
Qed.

(** Lines 35-45: every aggregate row counts at least one pull request, and
    the rows' [num_prs] add up to the number of pull-request records: the
    grouping partitions the records. *)
Theorem num_prs_partition (prs : list pull_request) :
  Forall (fun a => 1 <= num_prs a) (pr_aggregated prs) /\
  zsum (map num_prs (pr_aggregated prs)) = Z.of_nat (List.length prs).
Proof.
  split.
  - apply Forall_forall. intros a Ha. exact (agg_num_prs_pos prs a Ha).
  - unfold pr_aggregated. rewrite map_map. cbn [num_prs aggregate_group].
    apply zsum_groups; [apply NoDup_nodup|].
    intros p Hp. apply nodup_In, in_map, Hp.
Qed.

(** Lines 35-45: in an aggregate row, [merged_at] (the latest merge time)
    is null exactly when [num_prs_merged] is 0. *)
Theorem merged_at_null_iff_unmerged (prs : list pull_request) :
  Forall (fun a => a_merged_at a = None <-> num_prs_merged a = 0) (pr_aggregated prs).
Proof.
  apply Forall_forall. intros a Ha. exact (agg_merged_at_none_iff prs a Ha).
Qed.

(** A compliant output row has at least one merged pull request, so its
    [merged_at] is not null. *)
Theorem compliant_row_merged (repos : list raw_repository) (prs : list pull_request)
    (rows : list compliance_record) (row : compliance_record) :
  final_df repos prs = SOk rows -> In row rows -> c_is_compliant row = true ->
  1 <= c_num_prs_merged row /\ c_merged_at row <> None.
Proof.
  intros Hf Hin Hc. rewrite (final_df_ok _ _ _ Hf) in Hin.
  apply in_map_iff in Hin. destruct Hin as (j & <- & Hj).
  cbn [c_is_compliant final_of] in Hc. apply is_compliant_of_iff in Hc. destruct Hc as [Eq _].
  apply in_join in Hj. destruct Hj as (a & r & Ha & _ & _ & _ & Ej).
  rewrite Ej in Eq |- *. cbn [final_of c_num_prs_merged c_merged_at j_num_prs j_num_prs_merged j_merged_at] in Eq |- *.
  pose proof (agg_num_prs_pos prs a Ha) as Hpos.
  split; [lia|]. intros Hn. apply (agg_merged_at_none_iff prs a Ha) in Hn. lia.
Qed.

Lemma compliant_row_merged_witness :
  1 <= c_num_prs_merged (final_of (mkJoinedRow 1 1 1 (Some "2024-01-01") (Some "scytale") (Some "repoA") (Some "scytale"))) /\
  c_merged_at (final_of (mkJoinedRow 1 1 1 (Some "2024-01-01") (Some "scytale") (Some "repoA") (Some "scytale"))) <> None.
Proof.
  apply (compliant_row_merged [repo_a] [pr_on 1 (Some "2024-01-01")]
           [final_of (mkJoinedRow 1 1 1 (Some "2024-01-01") (Some "scytale") (Some "repoA") (Some "scytale"))]).
  - vm_compute. reflexivity.
  - now left.
  - vm_compute. reflexivity.
Defined.

(** The job does not depend on the order of the input records: permuting
    the repositories and the pull requests permutes the rows of [final_df],
    and an [AnalysisException] stays one. *)
Theorem final_df_perm (repos repos' : list raw_repository) (prs prs' : list pull_request) :
  Permutation repos repos' -> Permutation prs prs' ->
  match final_df repos prs, final_df repos' prs' with
  | SOk a, SOk b => Permutation a b
  | AnalysisException, AnalysisException => True
  | _, _ => False
  end.
Proof.
  intros Pr Pp.
  unfold final_df, schema_has_repo_columns, schema_has_merged_at, schema_has_head_repo_id.
  rewrite (existsb_perm (fun r => is_key (rj_full_name r)) _ _ Pr),
    (existsb_perm (fun r => is_key (rj_id r)) _ _ Pr),
    (existsb_perm (fun r => is_key (rj_name r)) _ _ Pr),
    (existsb_perm (fun r => match rj_owner r with Some o => is_key (ow_login o) | None => false end) _ _ Pr),
    (existsb_perm (fun p => is_key (pr_merged_at p)) _ _ Pp),
    (existsb_perm has_head_repo_id_key _ _ Pp).
  match goal with |- context [if ?b then _ else _] => destruct b end; [|exact I].
  apply Permutation_map, join_perm; [apply pr_aggregated_perm, Pp | apply Permutation_map, Pr].
Qed.

Lemma final_df_perm_witness :
  match final_df [repo_a] [pr_on 1 None; pr_on 1 (Some "2024-01-01"); pr_orphan],
        final_df [repo_a] [pr_orphan; pr_on 1 (Some "2024-01-01"); pr_on 1 None] with
  | SOk a, SOk b => Permutation a b
  | AnalysisException, AnalysisException => True
  | _, _ => False
  end.
Proof.
  apply final_df_perm; [apply Permutation_refl|].
  apply (Permutation_trans (l' := [pr_on 1 (Some "2024-01-01"); pr_on 1 None; pr_orphan])); [apply perm_swap|].
  apply (Permutation_trans (l' := [pr_on 1 (Some "2024-01-01"); pr_orphan; pr_on 1 None])); [apply perm_skip, perm_swap|].
  apply perm_swap.
Defined.

(** Lines 25-30: for a [full_name] of the form [owner/rest] whose owner
    part has no slash, [organization_name] is that owner part. *)
Theorem organization_name_prefix (r : raw_repository) (o n : string) :
  contains "/" o = false -> full_name r = Some (o ++ "/" ++ n)%string ->
  organization_name (repo_filtered r) = Some o.
Proof.
  intros Ho Hf. unfold repo_filtered. rewrite Hf. cbn [option_map organization_name]. f_equal.
  unfold split_slash_0. clear Hf. induction o as [|c o IH]; [reflexivity|].
  cbn [contains starts_with] in Ho. apply orb_false_iff in Ho. destruct Ho as [Hc Ho].
  rewrite andb_true_r in Hc. cbn [append take_until]. rewrite Ascii.eqb_sym, Hc.
  f_equal. apply IH. exact Ho.
Qed.

Lemma organization_name_prefix_witness :
  organization_name (repo_filtered (mkRawRepository (Some "Scytale/repo/x") (Some 7) (Some "repo") (Some "Scytale")))
  = Some "Scytale".
Proof.
  apply (organization_name_prefix _ "Scytale" "repo/x"); reflexivity.
Defined.

(** Lines 35-47: the output has one row with [repository_id = k] for each
    repository record with id [k] when some pull request's
    [head.repo.id] is [k], and none otherwise. *)
Theorem rows_per_id (repos : list raw_repository) (prs : list pull_request)
    (rows : list compliance_record) (k : Z) :
  final_df repos prs = SOk rows ->
  List.length (filter (fun c => c_repository_id c =? k) rows) =
    if existsb (fun p => key_eqb (head_repo_id p) (Some k)) prs
    then List.length (filter (fun r => key_eqb (id r) (Some k)) repos) else 0%nat.
Proof.
  intros Hf. rewrite (final_df_ok _ _ _ Hf).
  rewrite filter_map_comm, length_map. cbn [final_of c_repository_id].
  unfold join. rewrite filter_flat_map, length_flat_map'.
  rewrite (map_ext _ _ (fun a => join_rows_of_agg a (map repo_filtered repos) k)).
  rewrite nsum_indicator by (rewrite pr_aggregated_ids; apply NoDup_nodup).
  rewrite filter_map_comm, length_map. cbn [repository_id repo_filtered].
  rewrite pr_aggregated_ids.
  destruct (in_dec key_eq_dec (Some k) (nodup key_eq_dec (map head_repo_id prs))) as [I|I];
    destruct (existsb (fun p => key_eqb (head_repo_id p) (Some k)) prs) eqn:E; try reflexivity.
  - exfalso. apply nodup_In, in_map_iff in I. destruct I as (p & Ep & Hp).
    assert (H : existsb (fun p => key_eqb (head_repo_id p) (Some k)) prs = true)
      by (apply existsb_exists; exists p; split; [exact Hp | rewrite Ep; apply key_eqb_refl]).
    congruence.
  - exfalso. apply existsb_exists in E. destruct E as (p & Hp & Ep).
    apply I, nodup_In, in_map_iff. exists p. split; [|exact Hp].
    unfold key_eqb in Ep. destruct (key_eq_dec (head_repo_id p) (Some k)); [assumption|discriminate].
Qed.

Lemma rows_per_id_witness :
  List.length (filter (fun c => c_repository_id c =? 1)
    [final_of (mkJoinedRow 1 1 0 None (Some "scytale") (Some "repoA") (Some "scytale"));
     final_of (mkJoinedRow 1 1 0 None (Some "scytale") (Some "repoA") (Some "scytale"))]) =
    if existsb (fun p => key_eqb (head_repo_id p) (Some 1)) [pr_on 1 None]
    then List.length (filter (fun r => key_eqb (id r) (Some 1)) [repo_a; repo_a]) else 0%nat.
Proof.
  apply (rows_per_id [repo_a; repo_a] [pr_on 1 None]). vm_compute. reflexivity.
Defined.

End AggExtra.
